(** * CanvasRenderer: the layer compositing and blending engine of img.js

    A shallow embedding of [src/canvasrenderer.js] and the properties of its
    rendering pipeline.

    Conventions of the embedding.
    - A JavaScript number is an exact rational in canonical form ([Qc]):
      equal numbers are equal terms, as in JavaScript.  IEEE rounding,
      [NaN] and the infinities are not modelled.  An identity between two
      different expressions, such as [a + (c - a) = c], holds of these
      numbers and need not hold of the doubles of the code: the properties
      of the rectangles are stated through the order of the numbers and the
      sums and differences that the code itself takes, and the period of
      the gradient line for the rotations that the code treats alike.
    - The HTML canvas, the [blend] and [process] modules, [util] and [async]
      are not part of the file.  What the renderer asks of them is gathered in
      the record [Env]; every function of the renderer takes it as a
      parameter.
    - Effects are in the monad [M], which carries the exception that the
      code throws, if any, and the log of the calls made to the backend.  A
      function that takes a callback takes it here as a continuation; no
      function of the file calls a callback with an error.
    - The stages mutate the canvas they receive and hand the same object on;
      the embedding threads the value of that one object. *)

From Stdlib Require Import ZArith QArith Qcanon Qround Lqa.
From Stdlib Require Import List String Bool Lia.
From Stdlib Require Import Reals Lra.
Import ListNotations.

Open Scope Qc_scope.

(** ** Numbers *)

Definition int (z : Z) : Qc := Q2Qc (inject_Z z).

(** [a < b], [a <= b] and [a !== b] as the code tests them. *)
Definition ltb (a b : Qc) : bool :=
  match a ?= b with Lt => true | _ => false end.

Definition leb (a b : Qc) : bool :=
  match a ?= b with Gt => false | _ => true end.

Definition neqb (a b : Qc) : bool := negb (Qc_eq_bool a b).

Definition Math_max (a b : Qc) : Qc := if ltb a b then b else a.

Definition Math_min (a b : Qc) : Qc := if ltb b a then b else a.

(** [Math.round] rounds half up; [Math.ceil] rounds up. *)
Definition Math_round (a : Qc) : Qc := int (Qfloor (a + 1 / int 2)).

Definition Math_ceil (a : Qc) : Qc := int (Qceiling a).

(** ** Data *)

(** The bytes of a bitmap, four per pixel (each entry is in 0..255). *)
Definition Bytes := list N.

Module Point.
Record t := mk { x : Qc; y : Qc }.
End Point.

Module Rect.
Record t := mk { x : Qc; y : Qc; width : Qc; height : Qc }.
End Rect.

Module ImageData.
Record t := mk { width : Qc; height : Qc; data : Bytes }.
End ImageData.

(** The value of [util.radians(deg)]: an angle, kept symbolic. *)
Inductive Angle := radians (deg : Qc).

(** The calls that change the current transformation matrix of a 2D context.
    The matrix is kept as the sequence of the calls made since the identity. *)
Inductive CtxOp :=
| translate (dx dy : Qc)
| rotate (a : Angle)
| scale (kx ky : Qc).

(** The gradient objects of the 2D context, with their colour stops.  The
    line of a linear gradient is [None] when its four arguments are
    [undefined]. *)
Inductive GradientKind :=
| RadialGradient (x0 y0 r0 x1 y1 r1 : Qc)
| LinearGradient (line : option (Qc * Qc * Qc * Qc)).

Module CanvasGradient.
Record t := mk { kind : GradientKind; stops : list (Qc * string) }.

Definition addColorStop (offset : Qc) (color : string) (g : t) : t :=
  mk (kind g) (stops g ++ [(offset, color)]).
End CanvasGradient.

Inductive FillStyle :=
| FillColor (color : string)
| FillGradient (g : CanvasGradient.t).

Module Context2D.
Record t := mk {
  ctm : list CtxOp;
  globalAlpha : Qc;
  globalCompositeOperation : string;
  fillStyle : FillStyle }.

Definition initial : t := mk [] 1 "source-over" (FillColor "#000000").

Definition apply (op : CtxOp) (c : t) : t :=
  mk (ctm c ++ [op]) (globalAlpha c) (globalCompositeOperation c) (fillStyle c).

Definition setGlobalAlpha (a : Qc) (c : t) : t :=
  mk (ctm c) a (globalCompositeOperation c) (fillStyle c).

Definition setGlobalCompositeOperation (m : string) (c : t) : t :=
  mk (ctm c) (globalAlpha c) m (fillStyle c).

Definition setFillStyle (f : FillStyle) (c : t) : t :=
  mk (ctm c) (globalAlpha c) (globalCompositeOperation c) f.
End Context2D.

(** An image element: a decoded picture. *)
Module Image.
Record t := mk { width : Qc; height : Qc; bitmap : Bytes }.
End Image.

(** A canvas element with the state of its 2D context and the stack that
    [ctx.save()] and [ctx.restore()] work on. *)
Module HtmlCanvas.
Record t := mk {
  width : Qc;
  height : Qc;
  pixels : Bytes;
  ctx : Context2D.t;
  saved : list Context2D.t }.

Definition withPixels (p : Bytes) (c : t) : t :=
  mk (width c) (height c) p (ctx c) (saved c).

Definition withCtx (s : Context2D.t) (c : t) : t :=
  mk (width c) (height c) (pixels c) s (saved c).

Definition save (c : t) : t :=
  mk (width c) (height c) (pixels c) (ctx c) (ctx c :: saved c).

Definition restore (c : t) : t :=
  match saved c with
  | [] => c
  | s :: rest => mk (width c) (height c) (pixels c) s rest
  end.
End HtmlCanvas.

(** What [ctx.drawImage] accepts as its source. *)
Inductive ImageSource :=
| SrcCanvas (c : HtmlCanvas.t)
| SrcImage (i : Image.t).

(** The entries of [layer.data] for a gradient; an absent entry is [None]. *)
Module GradientData.
Record t := mk {
  type : option string;
  rotation : option Qc;
  spread : option Qc;
  startColor : string;
  endColor : string }.
End GradientData.

(** A filter of a layer: [{name, options}]. *)
Inductive FilterOptions :=
| NoOptions
| MaskOptions (data : Bytes) (x y width height : Qc)
| UserOptions (o : list (string * Qc)).

Module Filter.
Record t := mk { name : string; options : FilterOptions }.
End Filter.

(** The layers of an image canvas.  [layer.data] is tagged by the kind that
    [layer.isPath()], [layer.isFill()], ... report. *)
Inductive Layer :=
| mkLayer (data : Content) (width height : option Qc)
    (opacity : Qc) (blendmode : string)
    (tx ty sx sy rot : Qc) (flip_h flip_v : bool)
    (mask : option ImageCanvas) (filters : option (list Filter.t))
with Content :=
| CPath (src : string)
| CFill (color : string)
| CGradient (g : GradientData.t)
| CHtmlCanvas (c : HtmlCanvas.t)
| CImage (img : Image.t)
| CImageCanvas (ic : ImageCanvas)
| COther
with ImageCanvas :=
| mkImageCanvas (width height : Qc) (layers : list Layer).

Module ICanvas.
Definition width (ic : ImageCanvas) : Qc :=
  match ic with mkImageCanvas w _ _ => w end.

Definition height (ic : ImageCanvas) : Qc :=
  match ic with mkImageCanvas _ h _ => h end.

Definition layers (ic : ImageCanvas) : list Layer :=
  match ic with mkImageCanvas _ _ ls => ls end.
End ICanvas.

(** The objects that [getLayerData] builds, one per layer. *)
Module LayerData.
Record t := mk {
  img : HtmlCanvas.t;
  x : Qc;
  y : Qc;
  opacity : Qc;
  blendmode : string;
  tx : Qc;
  ty : Qc;
  sx : Qc;
  sy : Qc;
  rot : Qc;
  flip_h : bool;
  flip_v : bool }.
End LayerData.

(** The fields of a layer. *)
Module Lyr.
Definition data (l : Layer) : Content :=
  match l with mkLayer d _ _ _ _ _ _ _ _ _ _ _ _ _ => d end.

Definition width (l : Layer) : option Qc :=
  match l with mkLayer _ w _ _ _ _ _ _ _ _ _ _ _ _ => w end.

Definition height (l : Layer) : option Qc :=
  match l with mkLayer _ _ h _ _ _ _ _ _ _ _ _ _ _ => h end.

Definition opacity (l : Layer) : Qc :=
  match l with mkLayer _ _ _ o _ _ _ _ _ _ _ _ _ _ => o end.

Definition blendmode (l : Layer) : string :=
  match l with mkLayer _ _ _ _ b _ _ _ _ _ _ _ _ _ => b end.

Definition tx (l : Layer) : Qc :=
  match l with mkLayer _ _ _ _ _ v _ _ _ _ _ _ _ _ => v end.

Definition ty (l : Layer) : Qc :=
  match l with mkLayer _ _ _ _ _ _ v _ _ _ _ _ _ _ => v end.

Definition sx (l : Layer) : Qc :=
  match l with mkLayer _ _ _ _ _ _ _ v _ _ _ _ _ _ => v end.

Definition sy (l : Layer) : Qc :=
  match l with mkLayer _ _ _ _ _ _ _ _ v _ _ _ _ _ => v end.

Definition rot (l : Layer) : Qc :=
  match l with mkLayer _ _ _ _ _ _ _ _ _ v _ _ _ _ => v end.

Definition flip_h (l : Layer) : bool :=
  match l with mkLayer _ _ _ _ _ _ _ _ _ _ v _ _ _ => v end.

Definition flip_v (l : Layer) : bool :=
  match l with mkLayer _ _ _ _ _ _ _ _ _ _ _ v _ _ => v end.

Definition mask (l : Layer) : option ImageCanvas :=
  match l with mkLayer _ _ _ _ _ _ _ _ _ _ _ _ m _ => m end.

Definition filters (l : Layer) : option (list Filter.t) :=
  match l with mkLayer _ _ _ _ _ _ _ _ _ _ _ _ _ f => f end.
End Lyr.

(** The options object handed to a manual blend function. *)
Module LayerOptions.
Record t := mk {
  data : Bytes;
  width : Qc;
  height : Qc;
  opacity : Qc;
  dx : Qc;
  dy : Qc }.
End LayerOptions.

(** The calls made on a [util.transform()] object; [t.rotate] takes
    degrees. *)
Inductive TOp :=
| t_translate (dx dy : Qc)
| t_rotate (deg : Qc)
| t_scale (kx ky : Qc).

(** ** The external collaborators *)

(** A filter of [process] and a blend function of [blend] read their first
    array and write their second one: the result is the new content of the
    array written. *)
Definition FilterFn := Bytes -> Bytes -> Qc -> Qc -> FilterOptions -> Bytes.

Definition BlendFn := Bytes -> Bytes -> Qc -> Qc -> LayerOptions.t -> Bytes.

Module Env.
Record t := mk {
  (** [blend.getNativeModes()]: [None] is a name the table does not have. *)
  nativeBlendModes : string -> option bool;
  (** [blend[name]] and [process[name]]: [None] is [undefined]. *)
  blend : string -> option BlendFn;
  process : string -> option FilterFn;
  (** The bitmap of a canvas or of an [ImageData] just created. *)
  blank : Qc -> Qc -> Bytes;
  (** Whether the 2D context has a [createImageData] method. *)
  hasCreateImageData : bool;
  (** [ctx.getImageData(x, y, w, h).data] *)
  getImageData : HtmlCanvas.t -> Qc -> Qc -> Qc -> Qc -> Bytes;
  (** The bitmap after [ctx.putImageData(d, x, y)]. *)
  putImageData : HtmlCanvas.t -> ImageData.t -> Qc -> Qc -> Bytes;
  (** The bitmap after [ctx.drawImage(src, x, y)] or
      [ctx.drawImage(src, x, y, w, h)], under the state of the context. *)
  drawImage :
    HtmlCanvas.t -> ImageSource -> Qc -> Qc -> option (Qc * Qc) -> Bytes;
  (** The bitmap after [ctx.fillRect(x, y, w, h)]. *)
  fillRect : HtmlCanvas.t -> Qc -> Qc -> Qc -> Qc -> Bytes;
  (** The picture an [Image] loads from a location. *)
  decode : string -> Image.t;
  (** [t.transformPoint(p)] after the calls made on [t]. *)
  transformPoint : list TOp -> Point.t -> Point.t }.
End Env.

(** ** Exceptions and the log of backend calls *)

(** What the code throws: a [TypeError] of the language, and the
    [Error('No blend mode named ...')] of [mergeManualBlend]. *)
Inductive Error :=
| TypeError
| NoSuchBlendMode (mode : string).

(** The calls made to the backend, with what tells them apart. *)
Inductive Event :=
| EvCreateCanvas
| EvLoadImage (src : string)
| EvGetImageData (w h : Qc)
| EvCreateImageData (w h : Qc)
| EvPutImageData
| EvDrawImage (st : Context2D.t) (src : ImageSource) (x y : Qc)
| EvFillRect (style : FillStyle) (w h : Qc)
| EvFilter (name : string)
| EvBlend (mode : string) (o : LayerOptions.t).

Definition M (A : Type) : Type := (list Event * (Error + A))%type.

Definition ret {A} (a : A) : M A := ([], inr a).

Definition throw {A} (e : Error) : M A := ([], inl e).

Definition emit (ev : Event) : M unit := ([ev], inr tt).

Definition bind {A B} (m : M A) (f : A -> M B) : M B :=
  match m with
  | (log, inl e) => (log, inl e)
  | (log, inr a) => let (log', r) := f a in (log ++ log', r)
  end.

Notation "x <- m ;; k" := (bind m (fun x => k))
  (at level 61, m at next level, right associativity).

Notation "m ;;; k" := (bind m (fun _ => k))
  (at level 61, right associativity).

Definition events {A} (m : M A) : list Event := fst m.

Definition outcome {A} (m : M A) : Error + A := snd m.

Definition emits (log : list Event) : M unit := (log, inr tt).

(** A value that may be [null]; a callback; a function
    [function (canvas, callback)]. *)
Definition JsCanvas := option HtmlCanvas.t.

Definition Callback (A : Type) := A -> M unit.

Definition Stage := JsCanvas -> Callback JsCanvas -> M unit.

(** ** The [async] library, with callbacks called synchronously *)

(** [async.compose(f1, ..., fn)(x, cb)] runs [fn] first and [f1] last. *)
Fixpoint async_compose (fns : list Stage) (x : JsCanvas)
  (cb : Callback JsCanvas) : M unit :=
  match fns with
  | [] => cb x
  | f :: rest => async_compose rest x (fun y => f y cb)
  end.

(** [async.map(arr, iterator, cb)] hands [cb] the results in the order of
    [arr]. *)
Definition async_map {A B : Type} (iterator : A -> Callback B -> M unit) :=
  fix go (arr : list A) (cb : Callback (list B)) : M unit :=
    match arr with
    | [] => cb []
    | a :: rest => iterator a (fun b => go rest (fun bs => cb (b :: bs)))
    end.

(** The functions that [merge] puts in [renderPipe]: the one that hands
    over the base canvas, and [fn(iCanvas, currentList)] with [fn] chosen by
    [useNative]. *)
Inductive PipeFn :=
| seedFn (canvas : HtmlCanvas.t)
| blendFn (useNative : bool) (currentList : list LayerData.t).

(** The variables of [merge] that its loop changes.  [currentList] is
    [undefined] until the first pass of the loop assigns it, and is not read
    before; it starts here as the empty list. *)
Module MergeState.
Record t := mk {
  useNative : option bool;
  currentList : list LayerData.t;
  renderPipe : list PipeFn }.
End MergeState.

(** ** The renderer *)

Section Renderer.

Variable E : Env.t.

Definition passThrough : Stage := fun canvas callback => callback canvas.

(** *** The 2D context *)

(** [document.createElement('canvas')]: 300 by 150, transparent. *)
Definition createElement_canvas : M HtmlCanvas.t :=
  emit EvCreateCanvas ;;;
  ret (HtmlCanvas.mk (int 300) (int 150) (Env.blank E (int 300) (int 150))
         Context2D.initial []).

(** Assigning [canvas.width] or [canvas.height] clears the bitmap and
    resets the context. *)
Definition set_width (w : Qc) (c : HtmlCanvas.t) : HtmlCanvas.t :=
  HtmlCanvas.mk w (HtmlCanvas.height c) (Env.blank E w (HtmlCanvas.height c))
    Context2D.initial [].

Definition set_height (h : Qc) (c : HtmlCanvas.t) : HtmlCanvas.t :=
  HtmlCanvas.mk (HtmlCanvas.width c) h (Env.blank E (HtmlCanvas.width c) h)
    Context2D.initial [].

Definition ctx_update (f : Context2D.t -> Context2D.t) (c : HtmlCanvas.t)
  : HtmlCanvas.t :=
  HtmlCanvas.withCtx (f (HtmlCanvas.ctx c)) c.

Definition ctx_getImageData (c : HtmlCanvas.t) (x y w h : Qc)
  : M ImageData.t :=
  emit (EvGetImageData w h) ;;;
  ret (ImageData.mk w h (Env.getImageData E c x y w h)).

Definition ctx_putImageData (c : HtmlCanvas.t) (d : ImageData.t) (x y : Qc)
  : M HtmlCanvas.t :=
  emit EvPutImageData ;;;
  ret (HtmlCanvas.withPixels (Env.putImageData E c d x y) c).

Definition ctx_drawImage (c : HtmlCanvas.t) (src : ImageSource) (x y : Qc)
  (size : option (Qc * Qc)) : M HtmlCanvas.t :=
  emit (EvDrawImage (HtmlCanvas.ctx c) src x y) ;;;
  ret (HtmlCanvas.withPixels (Env.drawImage E c src x y size) c).

Definition ctx_fillRect (c : HtmlCanvas.t) (x y w h : Qc) : M HtmlCanvas.t :=
  emit (EvFillRect (Context2D.fillStyle (HtmlCanvas.ctx c)) w h) ;;;
  ret (HtmlCanvas.withPixels (Env.fillRect E c x y w h) c).

Definition createImageData (c : HtmlCanvas.t) (width height : Qc)
  : M ImageData.t :=
  if Env.hasCreateImageData E then
    emit (EvCreateImageData width height) ;;;
    ret (ImageData.mk width height (Env.blank E width height))
  else
    ctx_getImageData c 0 0 width height.

(** *** Loading of layers *)

Definition loadFile (src : string) : Stage :=
  fun _ callback =>
    canvas <- createElement_canvas ;;
    emit (EvLoadImage src) ;;;
    let source := Env.decode E src in
    let canvas := set_width (Image.width source) canvas in
    let canvas := set_height (Image.height source) canvas in
    canvas <- ctx_drawImage canvas (SrcImage source) 0 0
                (Some (HtmlCanvas.width canvas, HtmlCanvas.height canvas)) ;;
    callback (Some canvas).

Definition loadHtmlCanvas (canvas : HtmlCanvas.t) : Stage :=
  fun _ callback => callback (Some canvas).

Definition loadImage (img : Image.t) : Stage :=
  fun _ callback =>
    canvas <- createElement_canvas ;;
    let canvas := set_width (Image.width img) canvas in
    let canvas := set_height (Image.height img) canvas in
    canvas <- ctx_drawImage canvas (SrcImage img) 0 0
                (Some (HtmlCanvas.width canvas, HtmlCanvas.height canvas)) ;;
    callback (Some canvas).

(** [a !== undefined ? a : b] *)
Definition orElse (a : option Qc) (b : Qc) : Qc :=
  match a with Some v => v | None => b end.

Definition generateColor (iCanvas : ImageCanvas) (layer : Layer)
  (color : string) : Stage :=
  fun _ callback =>
    let width := orElse (Lyr.width layer) (ICanvas.width iCanvas) in
    let height := orElse (Lyr.height layer) (ICanvas.height iCanvas) in
    canvas <- createElement_canvas ;;
    let canvas := set_width width canvas in
    let canvas := set_height height canvas in
    let canvas :=
      ctx_update (Context2D.setFillStyle (FillColor color)) canvas in
    canvas <- ctx_fillRect canvas 0 0 width height ;;
    callback (Some canvas).

(** [a || 0] for a number and [a || 'linear'] for a string. *)
Definition orZero (a : option Qc) : Qc :=
  match a with Some v => v | None => 0 end.

Definition orLinear (a : option string) : string :=
  match a with
  | Some EmptyString | None => "linear"
  | Some s => s
  end.

(** The end points that [generateGradient] gives to
    [ctx.createLinearGradient]; [None] when no branch assigns them. *)
Definition gradientLine (width height rotateDegrees : Qc)
  : option (Qc * Qc * Qc * Qc) :=
  let rotateDegrees :=
    if ltb rotateDegrees 0 then rotateDegrees + int 360 else rotateDegrees in
  if leb 0 rotateDegrees && ltb rotateDegrees (int 45) then
    let x1 := 0 in
    let y1 := height / int 2 * (int 45 - rotateDegrees) / int 45 in
    let x2 := width in
    let y2 := height - y1 in
    Some (x1, y1, x2, y2)
  else if leb (int 45) rotateDegrees && ltb rotateDegrees (int 135) then
    let x1 := width * (rotateDegrees - int 45) / (int 135 - int 45) in
    let y1 := 0 in
    let x2 := width - x1 in
    let y2 := height in
    Some (x1, y1, x2, y2)
  else if leb (int 135) rotateDegrees && ltb rotateDegrees (int 225) then
    let x1 := width in
    let y1 := height * (rotateDegrees - int 135) / (int 225 - int 135) in
    let x2 := 0 in
    let y2 := height - y1 in
    Some (x1, y1, x2, y2)
  else if leb (int 225) rotateDegrees && ltb rotateDegrees (int 315) then
    let x1 :=
      width * (1 - (rotateDegrees - int 225) / (int 315 - int 225)) in
    let y1 := height in
    let x2 := width - x1 in
    let y2 := 0 in
    Some (x1, y1, x2, y2)
  else if leb (int 315) rotateDegrees then
    let x1 := 0 in
    let y1 :=
      height - height / int 2 * (rotateDegrees - int 315)
                 / (int 360 - int 315) in
    let x2 := width in
    let y2 := height - y1 in
    Some (x1, y1, x2, y2)
  else None.

Definition generateGradient (iCanvas : ImageCanvas) (layer : Layer)
  (data : GradientData.t) : Stage :=
  fun _ callback =>
    let width := orElse (Lyr.width layer) (ICanvas.width iCanvas) in
    let height := orElse (Lyr.height layer) (ICanvas.height iCanvas) in
    let cx := width / int 2 in
    let cy := height / int 2 in
    canvas <- createElement_canvas ;;
    let type := orLinear (GradientData.type data) in
    let rotateDegrees := orZero (GradientData.rotation data) in
    let grd :=
      if String.eqb type "radial" then
        CanvasGradient.mk
          (RadialGradient cx cy 0 cx cy (Math_min width height / int 2)) []
      else
        CanvasGradient.mk
          (LinearGradient (gradientLine width height rotateDegrees)) [] in
    let grd :=
      CanvasGradient.addColorStop (orZero (GradientData.spread data))
        (GradientData.startColor data) grd in
    let grd := CanvasGradient.addColorStop 1 (GradientData.endColor data) grd in
    let canvas := set_width width canvas in
    let canvas := set_height height canvas in
    let canvas :=
      ctx_update (Context2D.setFillStyle (FillGradient grd)) canvas in
    canvas <- ctx_fillRect canvas 0 0 width height ;;
    callback (Some canvas).

(** *** Processing of layers *)

(** The loop of [processImage]; [i] is the index of the first filter of
    [filters]. *)
Fixpoint processImage_loop (filters : list Filter.t) (i : nat)
  (width height : Qc) (inData outData : ImageData.t)
  : M (ImageData.t * ImageData.t) :=
  match filters with
  | [] => ret (inData, outData)
  | filter :: rest =>
      let (inData, outData) :=
        if Nat.ltb 0 i then (outData, inData) else (inData, outData) in
      match Env.process E (Filter.name filter) with
      | None => throw TypeError
      | Some fn =>
          emit (EvFilter (Filter.name filter)) ;;;
          let outData :=
            ImageData.mk (ImageData.width outData) (ImageData.height outData)
              (fn (ImageData.data inData) (ImageData.data outData)
                 width height (Filter.options filter)) in
          processImage_loop rest (S i) width height inData outData
      end
  end.

(** [filters] is [None] when the layer has no list of filters: reading
    [filters.length] throws. *)
Definition processImage (filters : option (list Filter.t)) : M Stage :=
  match filters with
  | None => throw TypeError
  | Some [] => ret passThrough
  | Some filters =>
      ret (fun canvas callback =>
        match canvas with
        | None => throw TypeError
        | Some canvas =>
            let width := HtmlCanvas.width canvas in
            let height := HtmlCanvas.height canvas in
            inData <- ctx_getImageData canvas 0 0 width height ;;
            outData <- createImageData canvas width height ;;
            io <- processImage_loop filters 0 width height inData outData ;;
            canvas <- ctx_putImageData canvas (snd io) 0 0 ;;
            callback (Some canvas)
        end)
  end.

(** *** Layer transformations *)

Definition transformLayer (ctx : Context2D.t) (iCanvas : ImageCanvas)
  (layer : LayerData.t) : Context2D.t :=
  let translate_ :=
    neqb (LayerData.tx layer) 0 || neqb (LayerData.ty layer) 0 in
  let scale_ := neqb (LayerData.sx layer) 1 || neqb (LayerData.sy layer) 1 in
  let rotate_ := neqb (LayerData.rot layer) 0 in
  let flip := LayerData.flip_h layer || LayerData.flip_v layer in
  let ctx :=
    if translate_ then
      Context2D.apply (translate (LayerData.tx layer) (LayerData.ty layer)) ctx
    else ctx in
  if scale_ || rotate_ || flip then
    let ctx :=
      Context2D.apply
        (translate (ICanvas.width iCanvas / int 2)
           (ICanvas.height iCanvas / int 2)) ctx in
    let ctx :=
      if rotate_ then
        Context2D.apply (rotate (radians (LayerData.rot layer))) ctx
      else ctx in
    let ctx :=
      if scale_ then
        Context2D.apply (scale (LayerData.sx layer) (LayerData.sy layer)) ctx
      else ctx in
    let ctx :=
      if flip then
        Context2D.apply
          (scale (if LayerData.flip_h layer then - (1) else 1)
             (if LayerData.flip_v layer then - (1) else 1)) ctx
      else ctx in
    Context2D.apply
      (translate (- ICanvas.width iCanvas / int 2)
         (- ICanvas.height iCanvas / int 2)) ctx
  else ctx.

(** The loop of [transformRect] over the corners; the bounds are not read
    before the corner of index 0 has set them. *)
Fixpoint transformRect_loop (t : list TOp) (points : list Point.t) (i : nat)
  (minx miny maxx maxy : Qc) : Qc * Qc * Qc * Qc :=
  match points with
  | [] => (minx, miny, maxx, maxy)
  | p :: rest =>
      let pt := Env.transformPoint E t p in
      if Nat.eqb i 0 then
        transformRect_loop t rest (S i)
          (Point.x pt) (Point.y pt) (Point.x pt) (Point.y pt)
      else
        let minx := if ltb (Point.x pt) minx then Point.x pt else minx in
        let maxx := if ltb maxx (Point.x pt) then Point.x pt else maxx in
        let miny := if ltb (Point.y pt) miny then Point.y pt else miny in
        let maxy := if ltb maxy (Point.y pt) then Point.y pt else maxy in
        transformRect_loop t rest (S i) minx miny maxx maxy
  end.

Definition transformRect (iCanvas : ImageCanvas) (layer : LayerData.t)
  : Rect.t :=
  let width := HtmlCanvas.width (LayerData.img layer) in
  let height := HtmlCanvas.height (LayerData.img layer) in
  let p1 := Point.mk 0 0 in
  let p2 := Point.mk width 0 in
  let p3 := Point.mk 0 height in
  let p4 := Point.mk width height in
  let points := [p1; p2; p3; p4] in
  let t :=
    [ t_translate ((ICanvas.width iCanvas - width) / int 2)
        ((ICanvas.height iCanvas - height) / int 2);
      t_translate (LayerData.tx layer) (LayerData.ty layer);
      t_translate (width / int 2) (height / int 2);
      t_rotate (LayerData.rot layer);
      t_scale (LayerData.sx layer) (LayerData.sy layer);
      t_translate (- width / int 2) (- height / int 2) ] in
  match transformRect_loop t points 0 0 0 0 0 with
  | (minx, miny, maxx, maxy) => Rect.mk minx miny (maxx - minx) (maxy - miny)
  end.

Definition rectIntersect (r1 r2 : Rect.t) : Rect.t :=
  let right1 := Rect.x r1 + Rect.width r1 in
  let bottom1 := Rect.y r1 + Rect.height r1 in
  let right2 := Rect.x r2 + Rect.width r2 in
  let bottom2 := Rect.y r2 + Rect.height r2 in
  let x := Math_max (Rect.x r1) (Rect.x r2) in
  let y := Math_max (Rect.y r1) (Rect.y r2) in
  let w := Math_max (Math_min right1 right2 - x) 0 in
  let h := Math_max (Math_min bottom1 bottom2 - y) 0 in
  Rect.mk x y w h.

Definition calcLayerRect (iCanvas : ImageCanvas) (layer : LayerData.t)
  : Rect.t :=
  let rect := transformRect iCanvas layer in
  let rect :=
    rectIntersect rect
      (Rect.mk 0 0 (ICanvas.width iCanvas) (ICanvas.height iCanvas)) in
  Rect.mk (Math_round (Rect.x rect)) (Math_round (Rect.y rect))
    (Math_ceil (Rect.width rect)) (Math_ceil (Rect.height rect)).

Definition getTransformedLayerData (iCanvas : ImageCanvas)
  (layer : LayerData.t) (rect : Rect.t) : M ImageData.t :=
  canvas <- createElement_canvas ;;
  let canvas := set_width (Rect.width rect) canvas in
  let canvas := set_height (Rect.height rect) canvas in
  let canvas :=
    ctx_update (Context2D.apply (translate (- Rect.x rect) (- Rect.y rect)))
      canvas in
  let canvas :=
    ctx_update (fun ctx => transformLayer ctx iCanvas layer) canvas in
  canvas <- ctx_drawImage canvas (SrcCanvas (LayerData.img layer))
              (LayerData.x layer) (LayerData.y layer) None ;;
  ctx_getImageData canvas 0 0 (Rect.width rect) (Rect.height rect).

(** *** Layer blending *)

(** The loop of [mergeManualBlend]; [i] is the index of the first layer of
    [layerData]. *)
Fixpoint mergeManualBlend_loop (iCanvas : ImageCanvas)
  (layerData : list LayerData.t) (i : nat) (baseData outData : ImageData.t)
  : M (ImageData.t * ImageData.t) :=
  match layerData with
  | [] => ret (baseData, outData)
  | layer :: rest =>
      let width := ICanvas.width iCanvas in
      let height := ICanvas.height iCanvas in
      let rect := calcLayerRect iCanvas layer in
      if ltb 0 (Rect.width rect) && ltb 0 (Rect.height rect) then
        let (baseData, outData) :=
          if Nat.ltb 0 i then (outData, baseData) else (baseData, outData) in
        blendData <- getTransformedLayerData iCanvas layer rect ;;
        let layerOptions :=
          LayerOptions.mk (ImageData.data blendData)
            (Rect.width rect) (Rect.height rect)
            (LayerData.opacity layer) (Rect.x rect) (Rect.y rect) in
        match Env.blend E (LayerData.blendmode layer) with
        | None => throw (NoSuchBlendMode (LayerData.blendmode layer))
        | Some fn =>
            emit (EvBlend (LayerData.blendmode layer) layerOptions) ;;;
            let outData :=
              ImageData.mk (ImageData.width outData) (ImageData.height outData)
                (fn (ImageData.data baseData) (ImageData.data outData)
                   width height layerOptions) in
            mergeManualBlend_loop iCanvas rest (S i) baseData outData
        end
      else
        mergeManualBlend_loop iCanvas rest (S i) baseData outData
  end.

Definition mergeManualBlend (iCanvas : ImageCanvas)
  (layerData : list LayerData.t) : Stage :=
  fun canvas callback =>
    match canvas with
    | None => throw TypeError
    | Some canvas =>
        let width := ICanvas.width iCanvas in
        let height := ICanvas.height iCanvas in
        baseData <- ctx_getImageData canvas 0 0 width height ;;
        outData <- createImageData canvas width height ;;
        bo <- mergeManualBlend_loop iCanvas layerData 0 baseData outData ;;
        canvas <- ctx_putImageData canvas (snd bo) 0 0 ;;
        callback (Some canvas)
    end.

Definition singleLayerWithOpacity (iCanvas : ImageCanvas)
  (layer : LayerData.t) : M HtmlCanvas.t :=
  canvas <- createElement_canvas ;;
  let canvas := set_width (ICanvas.width iCanvas) canvas in
  let canvas := set_height (ICanvas.height iCanvas) canvas in
  let canvas := HtmlCanvas.save canvas in
  let canvas :=
    ctx_update (fun ctx => transformLayer ctx iCanvas layer) canvas in
  let canvas :=
    if neqb (LayerData.opacity layer) 1 then
      ctx_update (Context2D.setGlobalAlpha (LayerData.opacity layer)) canvas
    else canvas in
  canvas <- ctx_drawImage canvas (SrcCanvas (LayerData.img layer))
              (LayerData.x layer) (LayerData.y layer) None ;;
  ret (HtmlCanvas.restore canvas).

(** The body of the loop of [mergeNativeBlend]. *)
Definition mergeNativeBlend_step (iCanvas : ImageCanvas)
  (canvas : HtmlCanvas.t) (layer : LayerData.t) : M HtmlCanvas.t :=
  let canvas := HtmlCanvas.save canvas in
  let canvas :=
    ctx_update (fun ctx => transformLayer ctx iCanvas layer) canvas in
  let canvas :=
    if neqb (LayerData.opacity layer) 1 then
      ctx_update (Context2D.setGlobalAlpha (LayerData.opacity layer)) canvas
    else canvas in
  let canvas :=
    if negb (String.eqb (LayerData.blendmode layer) "source-over") then
      ctx_update
        (Context2D.setGlobalCompositeOperation (LayerData.blendmode layer))
        canvas
    else canvas in
  canvas <- ctx_drawImage canvas (SrcCanvas (LayerData.img layer))
              (LayerData.x layer) (LayerData.y layer) None ;;
  ret (HtmlCanvas.restore canvas).

Fixpoint mergeNativeBlend_loop (iCanvas : ImageCanvas)
  (layerData : list LayerData.t) (canvas : HtmlCanvas.t) : M HtmlCanvas.t :=
  match layerData with
  | [] => ret canvas
  | layer :: rest =>
      canvas <- mergeNativeBlend_step iCanvas canvas layer ;;
      mergeNativeBlend_loop iCanvas rest canvas
  end.

Definition mergeNativeBlend (iCanvas : ImageCanvas)
  (layerData : list LayerData.t) : Stage :=
  fun canvas callback =>
    match canvas with
    | None => throw TypeError
    | Some canvas =>
        canvas <- mergeNativeBlend_loop iCanvas layerData canvas ;;
        callback (Some canvas)
    end.

Definition pipeStage (iCanvas : ImageCanvas) (f : PipeFn) : Stage :=
  match f with
  | seedFn canvas => fun _ cb => cb (Some canvas)
  | blendFn true currentList => mergeNativeBlend iCanvas currentList
  | blendFn false currentList => mergeManualBlend iCanvas currentList
  end.

Definition pushList (st : MergeState.t) : MergeState.t :=
  match MergeState.useNative st with
  | Some useNative =>
      MergeState.mk (MergeState.useNative st) (MergeState.currentList st)
        (blendFn useNative (MergeState.currentList st)
           :: MergeState.renderPipe st)
  | None => st
  end.

(** [a !== b] on values that are [true], [false] or [undefined]. *)
Definition strict_neq (a b : option bool) : bool :=
  match a, b with
  | Some x, Some y => negb (Bool.eqb x y)
  | None, None => false
  | _, _ => true
  end.

Definition is_undefined (a : option bool) : bool :=
  match a with None => true | Some _ => false end.

(** The loop of [merge] over [layerData[1..]]; the pass is the last one
    when no layer follows. *)
Fixpoint merge_loop (layers : list LayerData.t) (st : MergeState.t)
  : MergeState.t :=
  match layers with
  | [] => st
  | layer :: rest =>
      let mode := LayerData.blendmode layer in
      let st :=
        if is_undefined (MergeState.useNative st)
           || strict_neq (MergeState.useNative st)
                (Env.nativeBlendModes E mode)
        then
          let st := pushList st in
          MergeState.mk (MergeState.useNative st) [] (MergeState.renderPipe st)
        else st in
      let st :=
        MergeState.mk (MergeState.useNative st)
          (MergeState.currentList st ++ [layer]) (MergeState.renderPipe st) in
      let st :=
        MergeState.mk (Env.nativeBlendModes E mode)
          (MergeState.currentList st) (MergeState.renderPipe st) in
      let st := match rest with [] => pushList st | _ => st end in
      merge_loop rest st
  end.

(** [merge] calls [callback(canvas)] with the canvas object that every
    function of the pipe has drawn on and handed on. *)
Definition merge (iCanvas : ImageCanvas) (layerData : list LayerData.t)
  (callback : Callback JsCanvas) : M unit :=
  match layerData with
  | [] => createElement_canvas ;;; throw TypeError
  | layer :: rest =>
      canvas <- singleLayerWithOpacity iCanvas layer ;;
      let st := merge_loop rest (MergeState.mk None [] [seedFn canvas]) in
      async_compose (map (pipeStage iCanvas) (MergeState.renderPipe st)) None
        (fun canvas => callback canvas)
  end.

Definition composite (iCanvas : ImageCanvas) (layerData : list LayerData.t)
  (callback : Callback JsCanvas) : M unit :=
  match layerData with
  | [] => callback None
  | [layer] =>
      canvas <- singleLayerWithOpacity iCanvas layer ;;
      callback (Some canvas)
  | _ => merge iCanvas layerData callback
  end.

(** [layerImages] has one entry for each layer of [iCanvas]; an entry that
    is [null] has no [width]. *)
Fixpoint getLayerData_loop (iCanvas : ImageCanvas) (layers : list Layer)
  (layerImages : list JsCanvas) : M (list LayerData.t) :=
  match layerImages with
  | [] => ret []
  | layerImg :: images =>
      match layerImg, layers with
      | Some layerImg, layer :: layers =>
          let x :=
            (ICanvas.width iCanvas - HtmlCanvas.width layerImg) / int 2 in
          let y :=
            (ICanvas.height iCanvas - HtmlCanvas.height layerImg) / int 2 in
          let d :=
            LayerData.mk layerImg x y (Lyr.opacity layer) (Lyr.blendmode layer)
              (Lyr.tx layer) (Lyr.ty layer) (Lyr.sx layer) (Lyr.sy layer)
              (Lyr.rot layer) (Lyr.flip_h layer) (Lyr.flip_v layer) in
          layerData <- getLayerData_loop iCanvas layers images ;;
          ret (d :: layerData)
      | _, _ => throw TypeError
      end
  end.

Definition getLayerData (iCanvas : ImageCanvas) (layerImages : list JsCanvas)
  : M (list LayerData.t) :=
  getLayerData_loop iCanvas (ICanvas.layers iCanvas) layerImages.

(** *** The pipeline of a layer and the top level

    [processLayers] renders the mask of a layer and a nested image canvas
    through [render], and [render] runs [processLayers] on every layer.  The
    functions between them are first given for any [processLayers]. *)

Section Knot.

Variable processLayers_rec :
  ImageCanvas -> Layer -> Callback JsCanvas -> M unit.

Definition render_with (iCanvas : ImageCanvas)
  (callback : option (Callback JsCanvas)) : M unit :=
  async_map (processLayers_rec iCanvas) (ICanvas.layers iCanvas)
    (fun layerImages =>
       match callback with
       | Some callback =>
           layerData <- getLayerData iCanvas layerImages ;;
           composite iCanvas layerData callback
       | None => ret tt
       end).

Definition renderBW_with (iCanvas : ImageCanvas)
  (callback : Callback JsCanvas) : M unit :=
  render_with iCanvas (Some (fun canvas =>
    match canvas with
    | None => throw TypeError
    | Some canvas =>
        ctx_getImageData canvas 0 0
          (HtmlCanvas.width canvas) (HtmlCanvas.height canvas) ;;;
        let bwFilter := Filter.mk "luminancebw" NoOptions in
        fn <- processImage (Some [bwFilter]) ;;
        fn (Some canvas) (fun c => callback c)
    end)).

(** [mask] is [None] when the layer has no mask: reading [mask.layers]
    throws. *)
Definition processMask_with (mask : option ImageCanvas) : M Stage :=
  match mask with
  | None => throw TypeError
  | Some mask =>
      match ICanvas.layers mask with
      | [] => ret passThrough
      | _ =>
        ret (fun canvas callback =>
          match canvas with
          | None => throw TypeError
          | Some canvas =>
              let mask :=
                mkImageCanvas (HtmlCanvas.width canvas)
                  (HtmlCanvas.height canvas) (ICanvas.layers mask) in
              renderBW_with mask (fun c =>
                match c with
                | None => throw TypeError
                | Some c =>
                    data <- ctx_getImageData c 0 0
                              (HtmlCanvas.width c) (HtmlCanvas.height c) ;;
                    let maskFilter :=
                      Filter.mk "mask"
                        (MaskOptions (ImageData.data data) 0 0
                           (HtmlCanvas.width c) (HtmlCanvas.height c)) in
                    fn <- processImage (Some [maskFilter]) ;;
                    fn (Some canvas) callback
                end)
          end)
      end
  end.

(** Modelled from the spec: [iCanvas.render], the method of the image canvas
    that [loadImageCanvas] calls, is not in this file; it invokes the
    renderer on the nested canvas. *)
Definition loadImageCanvas_with (iCanvas : ImageCanvas) : Stage :=
  fun _ callback => render_with iCanvas (Some (fun canvas => callback canvas)).

(** [load] returns [undefined] for a layer of no known kind. *)
Definition load_with (iCanvas : ImageCanvas) (layer : Layer) : option Stage :=
  match Lyr.data layer with
  | CPath src => Some (loadFile src)
  | CFill color => Some (generateColor iCanvas layer color)
  | CGradient g => Some (generateGradient iCanvas layer g)
  | CHtmlCanvas c => Some (loadHtmlCanvas c)
  | CImage img => Some (loadImage img)
  | CImageCanvas ic => Some (loadImageCanvas_with ic)
  | COther => None
  end.

(** The arguments of [async.compose] are evaluated from left to right; the
    composition runs them from right to left. *)
Definition processLayers_with (iCanvas : ImageCanvas) (layer : Layer)
  (callback : Callback JsCanvas) : M unit :=
  f1 <- processImage (Lyr.filters layer) ;;
  f2 <- processMask_with (Lyr.mask layer) ;;
  match load_with iCanvas layer with
  | Some f3 => async_compose [f1; f2; f3] None callback
  | None => throw TypeError
  end.

End Knot.

Fixpoint processLayers (iCanvas : ImageCanvas) (layer : Layer)
  (callback : Callback JsCanvas) {struct layer} : M unit :=
  processLayers_with processLayers iCanvas layer callback.

Definition render := render_with processLayers.

Definition renderBW := renderBW_with processLayers.

Definition processMask := processMask_with processLayers.

Definition loadImageCanvas := loadImageCanvas_with processLayers.

Definition load := load_with processLayers.

End Renderer.

(** ** Notions used to state the properties *)

(** [m] is the greater (the lesser) of [a] and [b]. *)
Definition is_max (a b m : Qc) : Prop := a <= m /\ b <= m /\ (m = a \/ m = b).

Definition is_min (a b m : Qc) : Prop := m <= a /\ m <= b /\ (m = a \/ m = b).

(** *** The meaning of a current transformation matrix

    The matrix [[a c e] [b d f] [0 0 1]] over the real numbers; each call
    on the context multiplies the current matrix on the right. *)
Module Affine.
Local Open Scope R_scope.

Record t := mk { a : R; b : R; c : R; d : R; e : R; f : R }.

Definition id : t := mk 1 0 0 1 0 0.

Definition mul (m n : t) : t :=
  mk (a m * a n + c m * b n) (b m * a n + d m * b n)
     (a m * c n + c m * d n) (b m * c n + d m * d n)
     (a m * e n + c m * f n + e m) (b m * e n + d m * f n + f m).

Definition translation (x y : R) : t := mk 1 0 0 1 x y.

Definition rotation (theta : R) : t :=
  mk (cos theta) (sin theta) (- sin theta) (cos theta) 0 0.

Definition scaling (x y : R) : t := mk x 0 0 y 0 0.
End Affine.

Definition toR (q : Qc) : R := Q2R q.

(** Modelled from the spec: [util.radians] is not in this file; it turns
    degrees into radians. *)
Definition angleValue (a : Angle) : R :=
  match a with radians deg => (toR deg * PI / 180)%R end.

Definition opMatrix (op : CtxOp) : Affine.t :=
  match op with
  | translate dx dy => Affine.translation (toR dx) (toR dy)
  | rotate a => Affine.rotation (angleValue a)
  | scale kx ky => Affine.scaling (toR kx) (toR ky)
  end.

Definition matrixOf (ops : list CtxOp) : Affine.t :=
  fold_left (fun m op => Affine.mul m (opMatrix op)) ops Affine.id.

(** The placement transform in the words of the specification. *)
Definition nonIdentity (l : LayerData.t) : bool :=
  neqb (LayerData.sx l) 1 || neqb (LayerData.sy l) 1
  || neqb (LayerData.rot l) 0 || LayerData.flip_h l || LayerData.flip_v l.

Definition flipFactor (flip : bool) : R := if flip then (-1)%R else 1%R.

Definition pivotGroup (iCanvas : ImageCanvas) (l : LayerData.t) : Affine.t :=
  let cx := (toR (ICanvas.width iCanvas) / 2)%R in
  let cy := (toR (ICanvas.height iCanvas) / 2)%R in
  Affine.mul (Affine.translation cx cy)
    (Affine.mul (Affine.rotation (toR (LayerData.rot l) * PI / 180)%R)
       (Affine.mul
          (Affine.scaling (toR (LayerData.sx l)) (toR (LayerData.sy l)))
          (Affine.mul
             (Affine.scaling (flipFactor (LayerData.flip_h l))
                (flipFactor (LayerData.flip_v l)))
             (Affine.translation (- cx)%R (- cy)%R)))).

Definition placementTransform (iCanvas : ImageCanvas) (l : LayerData.t)
  : Affine.t :=
  Affine.mul
    (Affine.translation (toR (LayerData.tx l)) (toR (LayerData.ty l)))
    (if nonIdentity l then pivotGroup iCanvas l else Affine.id).

(** *** Runs of the blend compositor *)

(** The runs that a pipe holds, in the order in which the pipe runs them:
    [async.compose] runs the last function of [renderPipe] first. *)
Definition pipeRuns (pipe : list PipeFn) : list (bool * list LayerData.t) :=
  rev (flat_map
         (fun f =>
            match f with
            | blendFn b run => [(b, run)]
            | seedFn _ => []
            end) pipe).

(** Whether two entries of the capability table are the same boolean. *)
Definition sameCapability (a b : option bool) : bool :=
  match a, b with
  | Some x, Some y => Bool.eqb x y
  | _, _ => false
  end.

(** Putting a group in front of a list of groups: it joins the first group
    when both have the same boolean capability. *)
Definition attach (g : option bool * list LayerData.t)
  (gs : list (option bool * list LayerData.t))
  : list (option bool * list LayerData.t) :=
  match gs with
  | (c, run) :: more =>
      if sameCapability (fst g) c then (fst g, snd g ++ run) :: more
      else g :: gs
  | [] => [g]
  end.

(** The maximal groups of consecutive layers with the same boolean
    capability, each with its capability; a layer whose blend mode the table
    does not have is a group of its own. *)
Fixpoint groups (cap : LayerData.t -> option bool) (layers : list LayerData.t)
  : list (option bool * list LayerData.t) :=
  match layers with
  | [] => []
  | l :: rest => attach (cap l, [l]) (groups cap rest)
  end.

Definition definedRuns (gs : list (option bool * list LayerData.t))
  : list (bool * list LayerData.t) :=
  flat_map
    (fun g =>
       match g with
       | (Some b, run) => [(b, run)]
       | (None, _) => []
       end) gs.



(** Running the runs one after the other, first to last, each on the canvas
    that the one before hands on. *)
Fixpoint runInOrder (E : Env.t) (iCanvas : ImageCanvas)
  (runs : list (bool * list LayerData.t)) (canvas : JsCanvas)
  (cb : Callback JsCanvas) : M unit :=
  match runs with
  | [] => cb canvas
  | (b, run) :: more =>
      pipeStage E iCanvas (blendFn b run) canvas
        (fun canvas => runInOrder E iCanvas more canvas cb)
  end.

Definition capability (E : Env.t) (l : LayerData.t) : option bool :=
  Env.nativeBlendModes E (LayerData.blendmode l).

Definition positiveArea (r : Rect.t) : bool :=
  ltb 0 (Rect.width r) && ltb 0 (Rect.height r).

(** The function of the pipe for a run. *)
Definition runFn (r : bool * list LayerData.t) : PipeFn :=
  blendFn (fst r) (snd r).

(** A group is not empty and its layers have the capability of the group. *)
Definition groupOk (cap : LayerData.t -> option bool)
  (g : option bool * list LayerData.t) : Prop :=
  snd g <> [] /\ Forall (fun l => cap l = fst g) (snd g).




(** *** The order of compositing *)

(** What [ctx.drawImage(layer.img, layer.x, layer.y)] is called with, and
    the calls of that kind in a log, in the order in which they were made.
    A layer is drawn once when it is composited: on the output canvas in
    the native path, on a canvas of its own in the manual path. *)
Definition drawKey (l : LayerData.t) : HtmlCanvas.t * Qc * Qc :=
  (LayerData.img l, LayerData.x l, LayerData.y l).

Definition drawnLayers (log : list Event) : list (HtmlCanvas.t * Qc * Qc) :=
  flat_map
    (fun ev =>
       match ev with
       | EvDrawImage _ (SrcCanvas c) x y => [(c, x, y)]
       | _ => []
       end) log.

(** [s] is [l] with some elements left out, the others in their order. *)
Inductive subseq {A : Type} : list A -> list A -> Prop :=
| subseq_nil : subseq [] []
| subseq_skip (x : A) (s l : list A) : subseq s l -> subseq s (x :: l)
| subseq_take (x : A) (s l : list A) : subseq s l -> subseq (x :: s) (x :: l).

(** A layer that the manual path blends and whose blend mode is not in the
    registry of blend functions. *)
Definition offending (E : Env.t) (iCanvas : ImageCanvas) (l : LayerData.t)
  : Prop :=
  positiveArea (calcLayerRect E iCanvas l) = true
  /\ Env.blend E (LayerData.blendmode l) = None.

(** The computation [m] draws the layers [s], in that order, puts nothing
    on the canvas, and either returns a value or throws because a blend
    mode is not registered. *)
Definition draws (E : Env.t) {A} (m : M A) (s : list LayerData.t) : Prop :=
  drawnLayers (events m) = map drawKey s
  /\ ~ In EvPutImageData (events m)
  /\ ((exists a, outcome m = inr a)
      \/ (exists mode,
            Env.blend E mode = None
            /\ outcome m = inl (NoSuchBlendMode mode))).

(** A function of the pipe calls its callback once, last, with a canvas, or
    throws for a blend mode that is not registered and never calls it. *)
Definition delivers (stage : Callback JsCanvas -> M unit)
  (log : list Event) (canvas : HtmlCanvas.t) : Prop :=
  forall k, stage k = (emits log ;;; k (Some canvas)).

Definition raises (E : Env.t) (stage : Callback JsCanvas -> M unit)
  (log : list Event) (mode : string) : Prop :=
  Env.blend E mode = None
  /\ forall k, stage k = (log, inl (NoSuchBlendMode mode)).

Definition composites (E : Env.t) (stage : Callback JsCanvas -> M unit)
  (layers : list LayerData.t) : Prop :=
  exists log s,
    subseq s layers
    /\ drawnLayers log = map drawKey s
    /\ ((exists canvas, delivers stage log canvas)
        \/ (exists mode, raises E stage log mode)).

(** ** A small backend, for examples

    A canvas whose bitmap is read and written whole, a transform utility
    for translations and scalings, a table of native modes with
    ["source-over"] native and ["multiply"] and ["screen"] not, and a
    registry of blend functions that has ["multiply"] only. *)
Module Sample.

Definition applyOp (op : TOp) (p : Point.t) : Point.t :=
  match op with
  | t_translate dx dy => Point.mk (Point.x p + dx) (Point.y p + dy)
  | t_rotate _ => p
  | t_scale kx ky => Point.mk (Point.x p * kx) (Point.y p * ky)
  end.

Fixpoint zipWith (f : N -> N -> N) (a b : Bytes) : Bytes :=
  match a, b with
  | x :: a', y :: b' => f x y :: zipWith f a' b'
  | _, _ => []
  end.

Definition multiply : BlendFn :=
  fun base _ _ _ o =>
    zipWith (fun b d => (b * d / 255)%N) base (LayerOptions.data o).

Definition invert : FilterFn :=
  fun inData _ _ _ _ => map (fun v => (255 - v)%N) inData.

Definition halve : FilterFn :=
  fun inData _ _ _ _ => map (fun v => (v / 2)%N) inData.

Definition area (w h : Qc) : nat :=
  (4 * Z.to_nat (Qfloor w) * Z.to_nat (Qfloor h))%nat.

Definition env : Env.t :=
  Env.mk
    (fun m =>
       if String.eqb m "source-over" then Some true
       else if String.eqb m "multiply" then Some false
       else if String.eqb m "screen" then Some false
       else None)
    (fun m => if String.eqb m "multiply" then Some multiply else None)
    (fun m =>
       if String.eqb m "invert" then Some invert
       else if String.eqb m "halve" then Some halve
       else None)
    (fun w h => repeat 0%N (area w h))
    true
    (fun c _ _ _ _ => HtmlCanvas.pixels c)
    (fun _ d _ _ => ImageData.data d)
    (fun _ src _ _ _ =>
       match src with
       | SrcCanvas s => HtmlCanvas.pixels s
       | SrcImage i => Image.bitmap i
       end)
    (fun _ _ _ w h => repeat 255%N (area w h))
    (fun _ => Image.mk 1 1 [0; 0; 0; 255]%N)
    (fun ops p => fold_right applyOp p ops).

(** A canvas of one red pixel and a canvas of one blue pixel. *)
Definition red : HtmlCanvas.t :=
  HtmlCanvas.mk 1 1 [255; 0; 0; 255]%N Context2D.initial [].

Definition blue : HtmlCanvas.t :=
  HtmlCanvas.mk 1 1 [0; 0; 255; 255]%N Context2D.initial [].

(** An image canvas of one pixel, with no layer. *)
Definition onePixel : ImageCanvas := mkImageCanvas 1 1 [].

(** A placement of the blue pixel with a blend mode, moved right by [tx]. *)
Definition placement (blendmode : string) (tx : Qc) : LayerData.t :=
  LayerData.mk blue 0 0 1 blendmode tx 0 1 1 0 false false.


(** A placement whose blend mode is in neither table, and one that the
    table of native modes has as not native and the registry of blend
    functions does not have. *)
Definition hue : LayerData.t := placement "hue" 0.

Definition screen (tx : Qc) : LayerData.t := placement "screen" tx.

(** A layer with a fill and neither scaling nor rotation. *)
Definition fillLayer (mask : option ImageCanvas)
  (filters : option (list Filter.t)) : Layer :=
  mkLayer (CFill "red") None None 1 "source-over" 0 0 1 1 0 false false
    mask filters.

End Sample.

(** ** Notions for further properties *)

(** A point is inside a rectangle: left and top edges included, right and
    bottom edges excluded. *)
Definition inside (px py : Qc) (r : Rect.t) : Prop :=
  Rect.x r <= px /\ px < Rect.x r + Rect.width r
  /\ Rect.y r <= py /\ py < Rect.y r + Rect.height r.

(** The corners that [transformRect] transforms and the calls it makes on
    the transform object. *)
Definition corners (layer : LayerData.t) : list Point.t :=
  let width := HtmlCanvas.width (LayerData.img layer) in
  let height := HtmlCanvas.height (LayerData.img layer) in
  [Point.mk 0 0; Point.mk width 0; Point.mk 0 height; Point.mk width height].

Definition rectOps (iCanvas : ImageCanvas) (layer : LayerData.t)
  : list TOp :=
  let width := HtmlCanvas.width (LayerData.img layer) in
  let height := HtmlCanvas.height (LayerData.img layer) in
  [ t_translate ((ICanvas.width iCanvas - width) / int 2)
      ((ICanvas.height iCanvas - height) / int 2);
    t_translate (LayerData.tx layer) (LayerData.ty layer);
    t_translate (width / int 2) (height / int 2);
    t_rotate (LayerData.rot layer);
    t_scale (LayerData.sx layer) (LayerData.sy layer);
    t_translate (- width / int 2) (- height / int 2) ].

(** The rectangle of the canvas. *)
Definition canvasRect (iCanvas : ImageCanvas) : Rect.t :=
  Rect.mk 0 0 (ICanvas.width iCanvas) (ICanvas.height iCanvas).

(** A filter whose result does not depend on what its output array held. *)
Definition oblivious (fn : FilterFn) : Prop :=
  forall i o o' w h opts, fn i o w h opts = fn i o' w h opts.

(** The filters of a chain applied one after the other, each to the result
    of the one before; [None] when a name is not registered. *)
Fixpoint applyFilters (E : Env.t) (filters : list Filter.t) (w h : Qc)
  (pixels : Bytes) : option Bytes :=
  match filters with
  | [] => Some pixels
  | f :: rest =>
      match Env.process E (Filter.name f) with
      | Some fn => applyFilters E rest w h (fn pixels [] w h (Filter.options f))
      | None => None
      end
  end.

Definition filterLog (filters : list Filter.t) : list Event :=
  map (fun f => EvFilter (Filter.name f)) filters.

(** The call by which [createImageData] gets its image data. *)
Definition allocEvent (E : Env.t) (w h : Qc) : Event :=
  if Env.hasCreateImageData E then EvCreateImageData w h
  else EvGetImageData w h.

(** A filter of a chain that is registered and does not depend on the
    former content of its output array. *)
Definition usable (E : Env.t) (f : Filter.t) : Prop :=
  exists fn, Env.process E (Filter.name f) = Some fn /\ oblivious fn.

(** The state of the context under which the native path draws a layer,
    from the state before, and the call it makes; the base layer is drawn
    without a composite operation. *)
Definition baseState (ctx : Context2D.t) (iCanvas : ImageCanvas)
  (l : LayerData.t) : Context2D.t :=
  let ctx := transformLayer ctx iCanvas l in
  if neqb (LayerData.opacity l) 1 then
    Context2D.setGlobalAlpha (LayerData.opacity l) ctx
  else ctx.

Definition nativeState (ctx : Context2D.t) (iCanvas : ImageCanvas)
  (l : LayerData.t) : Context2D.t :=
  let ctx := baseState ctx iCanvas l in
  if negb (String.eqb (LayerData.blendmode l) "source-over") then
    Context2D.setGlobalCompositeOperation (LayerData.blendmode l) ctx
  else ctx.

Definition drawEvent (st : Context2D.t) (l : LayerData.t) : Event :=
  EvDrawImage st (SrcCanvas (LayerData.img l)) (LayerData.x l)
    (LayerData.y l).

(** Two canvases that differ in their pixels at most. *)
Definition sameButPixels (c c' : HtmlCanvas.t) : Prop :=
  HtmlCanvas.width c' = HtmlCanvas.width c
  /\ HtmlCanvas.height c' = HtmlCanvas.height c
  /\ HtmlCanvas.ctx c' = HtmlCanvas.ctx c
  /\ HtmlCanvas.saved c' = HtmlCanvas.saved c.

(** A blend function whose result does not depend on what its output array
    held. *)
Definition obliviousBlend (fn : BlendFn) : Prop :=
  forall base out out' w h o, fn base out w h o = fn base out' w h o.

(** A placement whose blend mode is registered with such a function. *)
Definition blendable (E : Env.t) (l : LayerData.t) : Prop :=
  exists fn,
    Env.blend E (LayerData.blendmode l) = Some fn /\ obliviousBlend fn.

(** The options that [mergeManualBlend] passes to the blend function of a
    placement. *)
Definition layerOptionsOf (E : Env.t) (iCanvas : ImageCanvas)
  (l : LayerData.t) : option LayerOptions.t :=
  let rect := calcLayerRect E iCanvas l in
  match outcome (getTransformedLayerData E iCanvas l rect) with
  | inr blendData =>
      Some (LayerOptions.mk (ImageData.data blendData)
              (Rect.width rect) (Rect.height rect)
              (LayerData.opacity l) (Rect.x rect) (Rect.y rect))
  | inl _ => None
  end.

(** The placements that have an area on the canvas blended one after the
    other, each onto the result of the one before. *)
Fixpoint blendAll (E : Env.t) (iCanvas : ImageCanvas)
  (layers : list LayerData.t) (pixels : Bytes) : option Bytes :=
  match layers with
  | [] => Some pixels
  | l :: rest =>
      if positiveArea (calcLayerRect E iCanvas l) then
        match Env.blend E (LayerData.blendmode l),
              layerOptionsOf E iCanvas l with
        | Some fn, Some o =>
            blendAll E iCanvas rest
              (fn pixels [] (ICanvas.width iCanvas) (ICanvas.height iCanvas) o)
        | _, _ => None
        end
      else blendAll E iCanvas rest pixels
  end.

(** An image data of the size of the image canvas. *)
Definition sized (iCanvas : ImageCanvas) (d : ImageData.t) : Prop :=
  ImageData.width d = ICanvas.width iCanvas
  /\ ImageData.height d = ICanvas.height iCanvas.

(** The size of the canvas that the loader of a layer hands on.  A layer
    that holds an image canvas or is of no known kind has none here, nor has
    a linear gradient whose line is undefined. *)
Definition contentSize (E : Env.t) (iCanvas : ImageCanvas) (layer : Layer)
  : option (Qc * Qc) :=
  let width := orElse (Lyr.width layer) (ICanvas.width iCanvas) in
  let height := orElse (Lyr.height layer) (ICanvas.height iCanvas) in
  match Lyr.data layer with
  | CPath src =>
      Some (Image.width (Env.decode E src), Image.height (Env.decode E src))
  | CFill _ => Some (width, height)
  | CGradient g =>
      if String.eqb (orLinear (GradientData.type g)) "radial" then
        Some (width, height)
      else
        match gradientLine width height (orZero (GradientData.rotation g)) with
        | Some _ => Some (width, height)
        | None => None
        end
  | CHtmlCanvas c => Some (HtmlCanvas.width c, HtmlCanvas.height c)
  | CImage img => Some (Image.width img, Image.height img)
  | CImageCanvas _ | COther => None
  end.

Definition isHtmlCanvas (layer : Layer) : bool :=
  match Lyr.data layer with CHtmlCanvas _ => true | _ => false end.

(** A layer with an empty list of filters and a mask that has no layer. *)
Definition plain (layer : Layer) : Prop :=
  Lyr.filters layer = Some []
  /\ exists mask, Lyr.mask layer = Some mask /\ ICanvas.layers mask = [].

(** A placement whose image has its centre at the centre of the image
    canvas, before the transformations of the layer. *)
Definition centred (iCanvas : ImageCanvas) (d : LayerData.t) : Prop :=
  LayerData.x d + HtmlCanvas.width (LayerData.img d) / int 2
  = ICanvas.width iCanvas / int 2
  /\ LayerData.y d + HtmlCanvas.height (LayerData.img d) / int 2
     = ICanvas.height iCanvas / int 2.

(** A placement that has the opacity, the blend mode and the transformations
    of a layer. *)
Definition placed (layer : Layer) (d : LayerData.t) : Prop :=
  LayerData.opacity d = Lyr.opacity layer
  /\ LayerData.blendmode d = Lyr.blendmode layer
  /\ LayerData.tx d = Lyr.tx layer /\ LayerData.ty d = Lyr.ty layer
  /\ LayerData.sx d = Lyr.sx layer /\ LayerData.sy d = Lyr.sy layer
  /\ LayerData.rot d = Lyr.rot layer
  /\ LayerData.flip_h d = Lyr.flip_h layer
  /\ LayerData.flip_v d = Lyr.flip_v layer.

(** The content of the image data that [createImageData] returns for a
    canvas. *)
Definition allocData (E : Env.t) (c : HtmlCanvas.t) (w h : Qc) : Bytes :=
  if Env.hasCreateImageData E then Env.blank E w h
  else Env.getImageData E c 0 0 w h.

(** The canvas that a stage of one filter leaves, and the calls that the
    stage makes on the way: the filter [f], with its options, is given the
    pixels of the canvas and the second buffer, and its result is put on
    the canvas. *)
Definition filtered (E : Env.t) (f : FilterFn) (options : FilterOptions)
  (c : HtmlCanvas.t) : HtmlCanvas.t :=
  let w := HtmlCanvas.width c in
  let h := HtmlCanvas.height c in
  HtmlCanvas.withPixels
    (Env.putImageData E c
       (ImageData.mk w h
          (f (Env.getImageData E c 0 0 w h) (allocData E c w h) w h options))
       0 0)
    c.

Definition filterCalls (E : Env.t) (name : string) (c : HtmlCanvas.t)
  : list Event :=
  [ EvGetImageData (HtmlCanvas.width c) (HtmlCanvas.height c);
    allocEvent E (HtmlCanvas.width c) (HtmlCanvas.height c);
    EvFilter name; EvPutImageData ].

(** The calls of a stage of one filter that finds its filter missing. *)
Definition missingCalls (E : Env.t) (c : HtmlCanvas.t) : list Event :=
  [ EvGetImageData (HtmlCanvas.width c) (HtmlCanvas.height c);
    allocEvent E (HtmlCanvas.width c) (HtmlCanvas.height c) ].

(** The pixels of a canvas as [renderBW] and the mask stage read them. *)
Definition readCall (c : HtmlCanvas.t) : Event :=
  EvGetImageData (HtmlCanvas.width c) (HtmlCanvas.height c).

(** The options of the mask filter for a rendered mask. *)
Definition maskOptions (E : Env.t) (rendered : HtmlCanvas.t) : FilterOptions :=
  MaskOptions
    (Env.getImageData E rendered 0 0
       (HtmlCanvas.width rendered) (HtmlCanvas.height rendered))
    0 0 (HtmlCanvas.width rendered) (HtmlCanvas.height rendered).

(** *** The order of compositing, call by call *)





(** ** A backend with the two filters of the masks, for examples *)
Module Darkroom.

(** Every channel replaced by the first channel of its pixel. *)
Fixpoint luminancebw (data : Bytes) : Bytes :=
  match data with
  | r :: _ :: _ :: a :: rest => r :: r :: r :: a :: luminancebw rest
  | _ => []
  end.

Definition env : Env.t :=
  Env.mk
    (Env.nativeBlendModes Sample.env)
    (Env.blend Sample.env)
    (fun name =>
       if String.eqb name "luminancebw" then
         Some (fun inData _ _ _ _ => luminancebw inData)
       else if String.eqb name "mask" then
         Some (fun inData _ _ _ options =>
                 match options with
                 | MaskOptions data _ _ _ _ =>
                     Sample.zipWith N.min inData data
                 | _ => inData
                 end)
       else Env.process Sample.env name)
    (Env.blank Sample.env)
    (Env.hasCreateImageData Sample.env)
    (Env.getImageData Sample.env)
    (Env.putImageData Sample.env)
    (Env.drawImage Sample.env)
    (Env.fillRect Sample.env)
    (Env.decode Sample.env)
    (Env.transformPoint Sample.env).

(** An image canvas of one pixel with one layer, a red fill. *)
Definition oneFill : ImageCanvas :=
  mkImageCanvas 1 1 [Sample.fillLayer (Some Sample.onePixel) (Some [])].

End Darkroom.

(** * Properties *)

(** ** Comparisons of numbers *)

Ltac qc2q :=
  unfold Qcle, Qclt, Qcminus, Qcdiv, Qcplus, Qcmult, Qcopp, Qcinv, int in *;
  cbn [this Q2Qc] in *; rewrite ?Qred_correct in *; unfold inject_Z in *.

Ltac qc_eq := apply Qc_is_canon; qc2q.

Lemma ltb_lt a b : ltb a b = true <-> a < b.
Proof.
  unfold ltb. rewrite Qclt_alt. destruct (a ?= b); split; congruence.
Qed.

Lemma ltb_ge a b : ltb a b = false <-> b <= a.
Proof.
  unfold ltb. rewrite Qcle_alt. unfold Qccompare.
  rewrite <- (Qcompare_antisym b a).
  destruct (b ?= a)%Q; simpl; split; congruence.
Qed.

Lemma leb_le a b : leb a b = true <-> a <= b.
Proof.
  unfold leb. rewrite Qcle_alt. destruct (a ?= b); split; congruence.
Qed.

Lemma leb_gt a b : leb a b = false <-> b < a.
Proof.
  unfold leb. rewrite Qclt_alt. unfold Qccompare.
  rewrite <- (Qcompare_antisym b a).
  destruct (b ?= a)%Q; simpl; split; congruence.
Qed.

Lemma neqb_false a b : neqb a b = false <-> a = b.
Proof.
  unfold neqb, Qc_eq_bool. destruct (Qc_eq_dec a b); simpl; split;
    congruence.
Qed.

Lemma neqb_true a b : neqb a b = true <-> a <> b.
Proof.
  unfold neqb, Qc_eq_bool. destruct (Qc_eq_dec a b); simpl; split;
    congruence.
Qed.

Ltac tests :=
  repeat match goal with
  | H : ltb _ _ = true |- _ => apply ltb_lt in H
  | H : ltb _ _ = false |- _ => apply ltb_ge in H
  | H : leb _ _ = true |- _ => apply leb_le in H
  | H : leb _ _ = false |- _ => apply leb_gt in H
  | H : _ && _ = true |- _ => apply andb_true_iff in H; destruct H
  end.

Lemma Math_max_is_max a b : is_max a b (Math_max a b).
Proof.
  unfold is_max, Math_max. destruct (ltb a b) eqn:H; tests.
  - repeat split; auto using Qclt_le_weak, Qcle_refl.
  - repeat split; auto using Qcle_refl.
Qed.

Lemma Math_min_is_min a b : is_min a b (Math_min a b).
Proof.
  unfold is_min, Math_min. destruct (ltb b a) eqn:H; tests.
  - repeat split; auto using Qclt_le_weak, Qcle_refl.
  - repeat split; auto using Qcle_refl.
Qed.

Lemma is_max_unique a b m n : is_max a b m -> is_max a b n -> m = n.
Proof.
  intros (Ha & Hb & Hm) (Ha' & Hb' & Hn).
  apply Qcle_antisym.
  - destruct Hm; subst; assumption.
  - destruct Hn; subst; assumption.
Qed.

Lemma is_min_unique a b m n : is_min a b m -> is_min a b n -> m = n.
Proof.
  intros (Ha & Hb & Hm) (Ha' & Hb' & Hn).
  apply Qcle_antisym.
  - destruct Hn; subst; assumption.
  - destruct Hm; subst; assumption.
Qed.

Lemma is_max_sym a b m : is_max a b m -> is_max b a m.
Proof. unfold is_max. tauto. Qed.

Lemma is_min_sym a b m : is_min a b m -> is_min b a m.
Proof. unfold is_min. tauto. Qed.

Lemma Math_max_comm a b : Math_max a b = Math_max b a.
Proof.
  apply (is_max_unique a b); [apply Math_max_is_max|].
  apply is_max_sym, Math_max_is_max.
Qed.

Lemma Math_min_comm a b : Math_min a b = Math_min b a.
Proof.
  apply (is_min_unique a b); [apply Math_min_is_min|].
  apply is_min_sym, Math_min_is_min.
Qed.

(** ** The intersection of rectangles *)

(** C8.  [rectIntersect] does not depend on the order of its arguments, its
    width and height are never negative, and it is the rectangle of the
    formula: its origin is the greater of the two origins on each axis, its
    width is the greater of 0 and the distance from there to the lesser of
    the two right edges, and likewise its height with the bottom edges. *)
Theorem rectIntersect_commutative_nonnegative (A B : Rect.t) :
  rectIntersect A B = rectIntersect B A
  /\ 0 <= Rect.width (rectIntersect A B)
  /\ 0 <= Rect.height (rectIntersect A B)
  /\ is_max (Rect.x A) (Rect.x B) (Rect.x (rectIntersect A B))
  /\ is_max (Rect.y A) (Rect.y B) (Rect.y (rectIntersect A B))
  /\ (exists right,
        is_min (Rect.x A + Rect.width A) (Rect.x B + Rect.width B) right
        /\ is_max 0 (right - Rect.x (rectIntersect A B))
             (Rect.width (rectIntersect A B)))
  /\ (exists bottom,
        is_min (Rect.y A + Rect.height A) (Rect.y B + Rect.height B) bottom
        /\ is_max 0 (bottom - Rect.y (rectIntersect A B))
             (Rect.height (rectIntersect A B))).
Proof.
  unfold rectIntersect; cbn [Rect.x Rect.y Rect.width Rect.height].
  split; [|split; [|split; [|split; [|split; [|split]]]]].
  - rewrite (Math_max_comm (Rect.x A)), (Math_max_comm (Rect.y A)).
    rewrite (Math_min_comm (Rect.x A + Rect.width A)).
    rewrite (Math_min_comm (Rect.y A + Rect.height A)).
    reflexivity.
  - apply (Math_max_is_max _ 0).
  - apply (Math_max_is_max _ 0).
  - apply Math_max_is_max.
  - apply Math_max_is_max.
  - eexists. split; [apply Math_min_is_min|].
    apply is_max_sym, Math_max_is_max.
  - eexists. split; [apply Math_min_is_min|].
    apply is_max_sym, Math_max_is_max.
Qed.

(** ** The line of a linear gradient *)

Ltac settle b :=
  let H := fresh in
  destruct b eqn:H; tests; try (exfalso; qc2q; Lqa.lra).

Ltac settle_tests :=
  repeat match goal with
  | |- context [ltb ?a ?b] => settle (ltb a b)
  | |- context [leb ?a ?b] => settle (leb a b)
  end.

Lemma gradientLine_sector1 (w h r : Qc) :
  0 <= r -> r < int 45 ->
  gradientLine w h r
  = Some (0, h / int 2 * (int 45 - r) / int 45, w,
          h - h / int 2 * (int 45 - r) / int 45).
Proof.
  intros Hlo Hhi. unfold gradientLine. settle_tests. reflexivity.
Qed.

Lemma gradientLine_sector2 (w h r : Qc) :
  int 45 <= r -> r < int 135 ->
  gradientLine w h r
  = Some (w * (r - int 45) / (int 135 - int 45), 0,
          w - w * (r - int 45) / (int 135 - int 45), h).
Proof.
  intros Hlo Hhi. unfold gradientLine. settle_tests. reflexivity.
Qed.

Lemma gradientLine_sector3 (w h r : Qc) :
  int 135 <= r -> r < int 225 ->
  gradientLine w h r
  = Some (w, h * (r - int 135) / (int 225 - int 135), 0,
          h - h * (r - int 135) / (int 225 - int 135)).
Proof.
  intros Hlo Hhi. unfold gradientLine. settle_tests. reflexivity.
Qed.

Lemma gradientLine_sector4 (w h r : Qc) :
  int 225 <= r -> r < int 315 ->
  gradientLine w h r
  = Some (w * (1 - (r - int 225) / (int 315 - int 225)), h,
          w - w * (1 - (r - int 225) / (int 315 - int 225)), 0).
Proof.
  intros Hlo Hhi. unfold gradientLine. settle_tests. reflexivity.
Qed.

Lemma gradientLine_sector5 (w h r : Qc) :
  int 315 <= r ->
  gradientLine w h r
  = Some (0, h - h / int 2 * (r - int 315) / (int 360 - int 315), w,
          h - (h - h / int 2 * (r - int 315) / (int 360 - int 315))).
Proof.
  intros Hlo. unfold gradientLine. settle_tests. reflexivity.
Qed.

(** A rotation between -360 and 0 is moved into [0, 360) before the
    sectors are told apart, and [r + 360] is already there. *)
Lemma gradientLine_normalised (w h r : Qc) :
  int (-360) <= r -> r < 0 ->
  gradientLine w h r = gradientLine w h (r + int 360).
Proof.
  intros Hlo Hneg. unfold gradientLine.
  assert (ltb r 0 = true) as -> by now apply ltb_lt.
  assert (ltb (r + int 360) 0 = false) as ->
    by (apply ltb_ge; qc2q; Lqa.lra).
  reflexivity.
Qed.

Lemma line_ext (a b c d a' b' c' d' : Qc) :
  a = a' -> b = b' -> c = c' -> d = d' ->
  Some (a, b, c, d) = Some (a', b', c', d').
Proof. congruence. Qed.

Ltac line_eq := apply line_ext; qc_eq; field.

(** C5, as the code has it.  For a negative rotation [r] from -360 on, the
    line of the gradient is the same for [r] and [r + 360]: the code adds
    360 to [r] and goes on with the sum, which is not negative.  At 0, 45,
    135, 225 and 315 degrees the end points are the mid points of the left
    and right edges, then the corners of the rectangle in turn. *)
Theorem gradientLine_period_and_corners (w h r : Qc)
  (Hlo : int (-360) <= r) (Hneg : r < 0) :
  gradientLine w h r = gradientLine w h (r + int 360)
  /\ gradientLine w h 0 = Some (0, h / int 2, w, h / int 2)
  /\ gradientLine w h (int 45) = Some (0, 0, w, h)
  /\ gradientLine w h (int 135) = Some (w, 0, 0, h)
  /\ gradientLine w h (int 225) = Some (w, h, 0, 0)
  /\ gradientLine w h (int 315) = Some (0, h, w, 0).
Proof.
  split; [|split; [|split; [|split; [|split]]]].
  - now apply gradientLine_normalised.
  - rewrite gradientLine_sector1 by (qc2q; Lqa.lra). line_eq.
  - rewrite gradientLine_sector2 by (qc2q; Lqa.lra). line_eq.
  - rewrite gradientLine_sector3 by (qc2q; Lqa.lra). line_eq.
  - rewrite gradientLine_sector4 by (qc2q; Lqa.lra). line_eq.
  - rewrite gradientLine_sector5 by (qc2q; Lqa.lra). line_eq.
Qed.

Lemma gradientLine_period_and_corners_witness :
  int (-360) <= int (-90)
  /\ int (-90) < 0
  /\ gradientLine (int 200) (int 100) (int (-90))
     = gradientLine (int 200) (int 100) (int (-90) + int 360)
  /\ gradientLine (int 200) (int 100) 0
     = Some (0, int 100 / int 2, int 200, int 100 / int 2).
Proof.
  assert (int (-360) <= int (-90)) as Hlo by (vm_compute; discriminate).
  assert (int (-90) < 0) as Hneg by reflexivity.
  split; [exact Hlo|]. split; [exact Hneg|].
  destruct (gradientLine_period_and_corners (int 200) (int 100) (int (-90))
              Hlo Hneg) as (Hperiod & Hzero & _).
  split; [exact Hperiod|exact Hzero].
Defined.

(** At 50 degrees the line leaves the top edge; at 410 degrees the code is in
    its last sector and the line leaves the left edge, above the
    rectangle. *)
Lemma gradientLine_not_periodic :
  gradientLine (int 100) (int 100) (int 50)
  <> gradientLine (int 100) (int 100) (int 50 + int 360).
Proof. vm_compute. discriminate. Qed.

(** ** The monad *)

Lemma bind_ret {A B} (a : A) (f : A -> M B) : bind (ret a) f = f a.
Proof. unfold bind, ret. destruct (f a). reflexivity. Qed.

Lemma bind_throw {A B} (e : Error) (f : A -> M B) : bind (throw e) f = throw e.
Proof. reflexivity. Qed.

Lemma bind_emits {B} (log : list Event) (k : M B) :
  (emits log ;;; k) = ((log ++ fst k)%list, snd k).
Proof. unfold bind, emits. destruct k. reflexivity. Qed.

Lemma bind_emit {B} (ev : Event) (k : M B) :
  (emit ev ;;; k) = (ev :: fst k, snd k).
Proof. unfold bind, emit. destruct k. reflexivity. Qed.

Lemma emits_nil {B} (k : M B) : (emits [] ;;; k) = k.
Proof. rewrite bind_emits. destruct k. reflexivity. Qed.

Lemma emits_cons {B} (ev : Event) (log : list Event) (k : M B) :
  (emit ev ;;; (emits log ;;; k)) = (emits (ev :: log) ;;; k).
Proof. rewrite bind_emit, !bind_emits. reflexivity. Qed.

Lemma emits_app {B} (l1 l2 : list Event) (k : M B) :
  (emits l1 ;;; (emits l2 ;;; k)) = (emits (l1 ++ l2) ;;; k).
Proof. rewrite !bind_emits. cbn [fst snd]. now rewrite app_assoc. Qed.

Lemma bind_assoc {A B C} (m : M A) (f : A -> M B) (g : B -> M C) :
  bind (bind m f) g = bind m (fun a => bind (f a) g).
Proof.
  destruct m as [log [e | a]]; [reflexivity|].
  unfold bind. destruct (f a) as [log1 [e1 | b]]; [reflexivity|].
  destruct (g b) as [log2 r]. now rewrite app_assoc.
Qed.

Lemma bind_ext {A B} (m : M A) (f g : A -> M B) :
  (forall a, f a = g a) -> bind m f = bind m g.
Proof.
  intros H. destruct m as [log [e | a]]; [reflexivity|].
  unfold bind. now rewrite H.
Qed.

(** ** The filter stage *)

(** C7.  With no filter the stage is [passThrough]: building it and running
    it make no call to the backend, and the callback receives the canvas it
    was given.  With two filters the first reads the pixels of the canvas
    and writes the second buffer, the second reads that buffer and writes
    the one that held the pixels of the canvas, and what it wrote is put on
    the canvas. *)
Theorem processImage_empty_and_pair (E : Env.t) :
  (processImage E (Some []) = ret passThrough
   /\ forall canvas cb, passThrough canvas cb = cb canvas)
  /\ forall (f1 f2 : Filter.t) (fn1 fn2 : FilterFn) (canvas : HtmlCanvas.t),
       Env.process E (Filter.name f1) = Some fn1 ->
       Env.process E (Filter.name f2) = Some fn2 ->
       exists stage,
         processImage E (Some [f1; f2]) = ret stage
         /\ forall cb,
              let w := HtmlCanvas.width canvas in
              let h := HtmlCanvas.height canvas in
              let original := Env.getImageData E canvas 0 0 w h in
              let other :=
                if Env.hasCreateImageData E then Env.blank E w h
                else Env.getImageData E canvas 0 0 w h in
              let bufferA := fn1 original other w h (Filter.options f1) in
              let bufferB := fn2 bufferA original w h (Filter.options f2) in
              stage (Some canvas) cb
              = (emits
                   [ EvGetImageData w h;
                     if Env.hasCreateImageData E then EvCreateImageData w h
                     else EvGetImageData w h;
                     EvFilter (Filter.name f1);
                     EvFilter (Filter.name f2);
                     EvPutImageData ] ;;;
                 cb (Some
                       (HtmlCanvas.withPixels
                          (Env.putImageData E canvas
                             (ImageData.mk w h bufferB) 0 0) canvas))).
Proof.
  split; [split; reflexivity|].
  intros f1 f2 fn1 fn2 canvas H1 H2. eexists. split; [reflexivity|].
  intros cb. cbv zeta.
  unfold ctx_getImageData, createImageData, ctx_putImageData.
  cbn [processImage_loop Nat.ltb Nat.leb]. rewrite H1, H2.
  destruct (Env.hasCreateImageData E);
    unfold ctx_getImageData, bind, emit, ret, emits;
    cbn [ImageData.data ImageData.width ImageData.height fst snd app];
    destruct (cb _); reflexivity.
Qed.

Lemma processImage_empty_and_pair_witness :
  Env.process Sample.env "invert" = Some Sample.invert
  /\ Env.process Sample.env "halve" = Some Sample.halve
  /\ exists stage,
       processImage Sample.env
         (Some [Filter.mk "invert" NoOptions; Filter.mk "halve" NoOptions])
       = ret stage
       /\ stage (Some Sample.red) (fun _ => ret tt)
          = (emits
               [ EvGetImageData 1 1; EvCreateImageData 1 1;
                 EvFilter "invert"; EvFilter "halve"; EvPutImageData ] ;;;
             ret tt).
Proof.
  split; [reflexivity|]. split; [reflexivity|].
  destruct (proj2 (processImage_empty_and_pair Sample.env)
              (Filter.mk "invert" NoOptions) (Filter.mk "halve" NoOptions)
              Sample.invert Sample.halve Sample.red eq_refl eq_refl)
    as (stage & Hstage & Hrun).
  exists stage. split; [exact Hstage|].
  exact (Hrun (fun _ => ret tt)).
Defined.

(** ** The top level *)

(** C3.  For an image canvas with no layer, [render] calls the callback
    once, with [null], having made no call to the backend and thrown
    nothing: rendering is exactly that call.  The compositor does the same
    for an empty list of layers, and without a callback [render] does
    nothing. *)
Theorem render_no_layers (E : Env.t) (width height : Qc)
  (callback : Callback JsCanvas) :
  render E (mkImageCanvas width height []) (Some callback) = callback None
  /\ composite E (mkImageCanvas width height []) [] callback = callback None
  /\ render E (mkImageCanvas width height []) None = ret tt.
Proof.
  unfold render, render_with, async_map, getLayerData.
  cbn [ICanvas.layers getLayerData_loop]. rewrite bind_ret.
  repeat split; reflexivity.
Qed.

(** ** The pipeline of a layer *)

(** C10.  For a layer with no mask the pipeline throws a [TypeError] when
    it builds the mask stage: it loads nothing, makes no call to the
    backend and never calls the callback, whatever the other fields of the
    layer; and rendering an image canvas whose first layer has no mask
    throws likewise.  The mask stage passes the canvas through only for a
    mask that is there and has no layer. *)
Theorem processLayers_without_mask (E : Env.t) (iCanvas : ImageCanvas)
  (layer : Layer) (callback : Callback JsCanvas)
  (Hmask : Lyr.mask layer = None) :
  processLayers E iCanvas layer callback = throw TypeError
  /\ (forall width height rest cb,
        render E (mkImageCanvas width height (layer :: rest)) cb
        = throw TypeError)
  /\ processMask E None = throw TypeError
  /\ forall width height,
       processMask E (Some (mkImageCanvas width height [])) = ret passThrough.
Proof.
  assert (forall ic k, processLayers E ic layer k = throw TypeError) as H.
  { intros ic k. destruct layer; cbn in Hmask; subst.
    cbn [processLayers]. unfold processLayers_with. cbn [Lyr.filters Lyr.mask].
    destruct filters as [[|f fs]|]; reflexivity. }
  split; [apply H|]. split; [|split; reflexivity].
  intros width height rest cb.
  unfold render, render_with. cbn [ICanvas.layers async_map].
  apply H.
Qed.

Lemma processLayers_without_mask_witness :
  Lyr.mask (Sample.fillLayer None (Some [])) = None
  /\ processLayers Sample.env Sample.onePixel
       (Sample.fillLayer None (Some [])) (fun _ => ret tt)
     = throw TypeError
  /\ render Sample.env
       (mkImageCanvas 1 1 [Sample.fillLayer None (Some [])]) None
     = throw TypeError.
Proof.
  split; [reflexivity|].
  destruct (processLayers_without_mask Sample.env Sample.onePixel
              (Sample.fillLayer None (Some [])) (fun _ => ret tt) eq_refl)
    as (Hlayer & Hrender & _).
  split; [exact Hlayer|]. exact (Hrender 1 1 [] None).
Defined.

(** ** The placement transform *)

Section Placement.

Local Open Scope R_scope.

Lemma toR_Q2Qc (q : Q) : toR (Q2Qc q) = Q2R q.
Proof. unfold toR. cbn [this Q2Qc]. apply Qreals.Qeq_eqR, Qred_correct. Qed.

Lemma toR_0 : toR (Q2Qc 0) = 0.
Proof. rewrite toR_Q2Qc. apply RMicromega.Q2R_0. Qed.

Lemma toR_1 : toR (Q2Qc 1) = 1.
Proof. rewrite toR_Q2Qc. apply RMicromega.Q2R_1. Qed.

Lemma toR_opp (q : Qc) : toR (Qcopp q) = - toR q.
Proof. unfold Qcopp. rewrite toR_Q2Qc. apply Qreals.Q2R_opp. Qed.

Lemma toR_half (q : Qc) : toR (Qcdiv q (int 2)) = toR q / 2.
Proof.
  unfold Qcdiv, Qcmult, Qcinv, int. rewrite toR_Q2Qc.
  rewrite Qreals.Q2R_mult. cbn [this Q2Qc].
  rewrite (Qreals.Qeq_eqR _ _ (Qred_correct _)).
  rewrite Qreals.Q2R_inv.
  - rewrite (Qreals.Qeq_eqR _ _ (Qred_correct _)).
    unfold toR, Rdiv. f_equal. f_equal. unfold Q2R. cbn. Lra.lra.
  - rewrite Qred_correct. discriminate.
Qed.

Lemma mul_id_r (m : Affine.t) : Affine.mul m Affine.id = m.
Proof.
  destruct m. unfold Affine.mul, Affine.id; cbn. f_equal; ring.
Qed.

Lemma mul_id_l (m : Affine.t) : Affine.mul Affine.id m = m.
Proof.
  destruct m. unfold Affine.mul, Affine.id; cbn. f_equal; ring.
Qed.

Lemma mul_assoc (m n p : Affine.t) :
  Affine.mul (Affine.mul m n) p = Affine.mul m (Affine.mul n p).
Proof.
  destruct m, n, p. unfold Affine.mul; cbn. f_equal; ring.
Qed.

Lemma matrixOf_app (ops : list CtxOp) (op : CtxOp) :
  matrixOf (ops ++ [op]) = Affine.mul (matrixOf ops) (opMatrix op).
Proof. unfold matrixOf. rewrite fold_left_app. reflexivity. Qed.

Lemma matrixOf_apply (op : CtxOp) (ctx : Context2D.t) :
  matrixOf (Context2D.ctm (Context2D.apply op ctx))
  = Affine.mul (matrixOf (Context2D.ctm ctx)) (opMatrix op).
Proof. apply matrixOf_app. Qed.

(** A call that the code makes only when its argument is not the neutral
    one multiplies the matrix as if it were always made. *)
Lemma matrixOf_guarded (b : bool) (op : CtxOp) (ctx : Context2D.t) :
  (b = false -> opMatrix op = Affine.id) ->
  matrixOf (Context2D.ctm (if b then Context2D.apply op ctx else ctx))
  = Affine.mul (matrixOf (Context2D.ctm ctx)) (opMatrix op).
Proof.
  intros H. destruct b.
  - apply matrixOf_app.
  - rewrite H by reflexivity. now rewrite mul_id_r.
Qed.

Lemma guarded_fields (b : bool) (op : CtxOp) (ctx : Context2D.t) :
  let ctx' := if b then Context2D.apply op ctx else ctx in
  Context2D.globalAlpha ctx' = Context2D.globalAlpha ctx
  /\ Context2D.globalCompositeOperation ctx'
     = Context2D.globalCompositeOperation ctx
  /\ Context2D.fillStyle ctx' = Context2D.fillStyle ctx.
Proof. destruct b; cbn; auto. Qed.

Lemma translation_0 :
  Affine.translation (toR (Q2Qc 0)) (toR (Q2Qc 0)) = Affine.id.
Proof. now rewrite toR_0. Qed.

Lemma rotation_0 : Affine.rotation (toR (Q2Qc 0) * PI / 180) = Affine.id.
Proof.
  rewrite toR_0. unfold Affine.rotation, Affine.id.
  replace (0 * PI / 180) with 0 by Lra.lra.
  rewrite cos_0, sin_0. f_equal. ring.
Qed.

Lemma scaling_1 : Affine.scaling (toR (Q2Qc 1)) (toR (Q2Qc 1)) = Affine.id.
Proof. now rewrite toR_1. Qed.

Lemma flip_matrix (h v : bool) :
  opMatrix (scale (if h then Qcopp (Q2Qc 1) else Q2Qc 1)
              (if v then Qcopp (Q2Qc 1) else Q2Qc 1))
  = Affine.scaling (flipFactor h) (flipFactor v).
Proof.
  cbn [opMatrix]. destruct h, v; cbn [flipFactor];
    rewrite ?toR_opp, ?toR_1; reflexivity.
Qed.

(** C6.  The calls that [transformLayer] makes on a context multiply its
    matrix by the translation by [(tx, ty)] and then, only when a scale, the
    rotation or a flip is not neutral, by the group around the centre of the
    canvas: move to the centre, rotate by [rot] degrees, scale by
    [(sx, sy)], negate the flipped axes, move back.  Nothing else of the
    context changes; for a layer with neither translation, scale, rotation
    nor flip no call is made at all, and such a layer, when opaque, is
    drawn by [singleLayerWithOpacity] under the initial state of the
    context, whose matrix is the identity. *)
Theorem transformLayer_placement (ctx : Context2D.t) (iCanvas : ImageCanvas)
  (layer : LayerData.t) :
  matrixOf (Context2D.ctm (transformLayer ctx iCanvas layer))
  = Affine.mul (matrixOf (Context2D.ctm ctx))
      (placementTransform iCanvas layer)
  /\ Context2D.globalAlpha (transformLayer ctx iCanvas layer)
     = Context2D.globalAlpha ctx
  /\ Context2D.globalCompositeOperation (transformLayer ctx iCanvas layer)
     = Context2D.globalCompositeOperation ctx
  /\ Context2D.fillStyle (transformLayer ctx iCanvas layer)
     = Context2D.fillStyle ctx
  /\ (forall img x y opacity blendmode,
        transformLayer ctx iCanvas
          (LayerData.mk img x y opacity blendmode
             0%Qc 0%Qc 1%Qc 1%Qc 0%Qc false false)
        = ctx)
  /\ forall E img x y blendmode,
       events
         (singleLayerWithOpacity E iCanvas
            (LayerData.mk img x y 1%Qc blendmode
               0%Qc 0%Qc 1%Qc 1%Qc 0%Qc false false))
       = [EvCreateCanvas; EvDrawImage Context2D.initial (SrcCanvas img) x y].
Proof.
  split; [|split; [|split; [|split; [|split]]]].
  - unfold transformLayer, placementTransform, nonIdentity.
    set (translate_ := (neqb (LayerData.tx layer) _ || _)%bool).
    set (scale_ := (neqb (LayerData.sx layer) _ || _)%bool).
    set (rotate_ := neqb (LayerData.rot layer) _).
    set (flip := (LayerData.flip_h layer || LayerData.flip_v layer)%bool).
    assert ((scale_ || rotate_ || LayerData.flip_h layer
             || LayerData.flip_v layer)%bool
            = (scale_ || rotate_ || flip)%bool) as ->
      by (subst flip; now rewrite <- !orb_assoc).
    set (ctx1 := if translate_ then _ else ctx).
    assert (matrixOf (Context2D.ctm ctx1)
            = Affine.mul (matrixOf (Context2D.ctm ctx))
                (Affine.translation (toR (LayerData.tx layer))
                   (toR (LayerData.ty layer)))) as H1.
    { subst ctx1. rewrite matrixOf_guarded; [reflexivity|].
      subst translate_. intros H. apply orb_false_iff in H as [Hx Hy].
      apply neqb_false in Hx, Hy. cbn [opMatrix]. rewrite Hx, Hy.
      apply translation_0. }
    destruct (scale_ || rotate_ || flip)%bool eqn:Hgroup.
    + cbv zeta. rewrite matrixOf_apply.
      rewrite matrixOf_guarded.
      2:{ subst flip. intros H. apply orb_false_iff in H as [-> ->].
          apply scaling_1. }
      rewrite matrixOf_guarded.
      2:{ subst scale_. intros H. apply orb_false_iff in H as [Hx Hy].
          apply neqb_false in Hx, Hy. cbn [opMatrix]. rewrite Hx, Hy.
          apply scaling_1. }
      rewrite matrixOf_guarded.
      2:{ subst rotate_. intros H. apply neqb_false in H.
          cbn [opMatrix angleValue]. rewrite H. apply rotation_0. }
      rewrite matrixOf_apply, H1, flip_matrix.
      cbn [opMatrix angleValue]. rewrite !toR_half, !toR_opp.
      unfold pivotGroup. rewrite !mul_assoc.
      repeat f_equal; Lra.lra.
    + rewrite H1, mul_id_r. reflexivity.
  - unfold transformLayer. cbv zeta.
    destruct (_ || _ || _)%bool;
      repeat match goal with
      | |- context [if ?b then _ else _] => destruct b
      end; reflexivity.
  - unfold transformLayer. cbv zeta.
    destruct (_ || _ || _)%bool;
      repeat match goal with
      | |- context [if ?b then _ else _] => destruct b
      end; reflexivity.
  - unfold transformLayer. cbv zeta.
    destruct (_ || _ || _)%bool;
      repeat match goal with
      | |- context [if ?b then _ else _] => destruct b
      end; reflexivity.
  - intros. reflexivity.
  - intros. reflexivity.
Qed.

End Placement.

(** ** The runs that [merge] builds *)

Section Groups.

Variable cap : LayerData.t -> option bool.

Lemma attach_head g gs :
  exists run more, attach g gs = (fst g, run) :: more.
Proof.
  destruct g as [c r], gs as [|[c' r'] more]; cbn.
  - eauto.
  - destruct (sameCapability c c'); eauto.
Qed.

Lemma attach_other u cur c run more :
  sameCapability u c = false ->
  attach (u, cur) ((c, run) :: more) = (u, cur) :: (c, run) :: more.
Proof. intros H. cbn. now rewrite H. Qed.

Lemma sameCapability_refl b : sameCapability (Some b) (Some b) = true.
Proof. destruct b; reflexivity. Qed.

Lemma sameCapability_eq u c : sameCapability u c = true -> u = c.
Proof. destruct u as [[|]|], c as [[|]|]; cbn; congruence. Qed.

(** The test of the loop: a new list is begun unless the layer has the
    boolean capability of the list in progress. *)
Lemma loop_test u c :
  (is_undefined u || strict_neq u c)%bool = negb (sameCapability u c).
Proof. destruct u as [[|]|], c as [[|]|]; reflexivity. Qed.

Lemma attach_attach u cur l gs :
  sameCapability u (cap l) = true ->
  attach (u, cur) (attach (cap l, [l]) gs) = attach (u, cur ++ [l]) gs.
Proof.
  intros H. apply sameCapability_eq in H as Hu. subst u.
  destruct gs as [|[c run] more]; cbn.
  - now rewrite H.
  - destruct (sameCapability (cap l) c) eqn:Hc; cbn.
    + rewrite H. now rewrite <- app_assoc.
    + now rewrite H.
Qed.

Lemma attach_fresh u cur l gs :
  sameCapability u (cap l) = false ->
  attach (u, cur) (attach (cap l, [l]) gs)
  = (u, cur) :: attach (cap l, [l]) gs.
Proof.
  intros H. destruct (attach_head (cap l, [l]) gs) as (run & more & ->).
  now apply attach_other.
Qed.

Lemma attach_concat g gs :
  List.concat (map snd (attach g gs))
  = (snd g ++ List.concat (map snd gs))%list.
Proof.
  destruct g as [c r], gs as [|[c' r'] more]; cbn.
  - reflexivity.
  - destruct (sameCapability c c'); cbn; now rewrite ?app_assoc.
Qed.

Lemma groups_concat layers : List.concat (map snd (groups cap layers)) = layers.
Proof.
  induction layers as [|l rest IH]; [reflexivity|].
  cbn [groups]. rewrite attach_concat, IH. reflexivity.
Qed.

Lemma attach_ok g gs :
  groupOk cap g -> Forall (groupOk cap) gs ->
  Forall (groupOk cap) (attach g gs).
Proof.
  intros [Hne Hg] Hgs. destruct g as [c r], gs as [|[c' r'] more]; cbn in *.
  - constructor; [split; assumption|constructor].
  - inversion Hgs as [|? ? [Hne' Hg'] Hmore]; subst.
    destruct (sameCapability c c') eqn:Hs.
    + apply sameCapability_eq in Hs; subst c'.
      constructor; [|assumption]. split; cbn.
      * destruct r; [congruence|discriminate].
      * apply Forall_app; split; assumption.
    + constructor; [split; assumption|assumption].
Qed.

Lemma groups_ok layers : Forall (groupOk cap) (groups cap layers).
Proof.
  induction layers as [|l rest IH]; [constructor|].
  cbn [groups]. apply attach_ok; [|assumption].
  split; cbn; [discriminate|]. constructor; [reflexivity|constructor].
Qed.





Lemma defined_concat layers :
  List.concat (map snd (definedRuns (groups cap layers)))
  = filter (fun l => negb (is_undefined (cap l))) layers.
Proof.
  induction layers as [|l rest IH]; [reflexivity|].
  cbn [groups filter]. rewrite <- IH. clear IH.
  destruct (cap l) as [b|] eqn:Hl; cbn [is_undefined negb].
  - destruct (groups cap rest) as [|[c run] more]; [reflexivity|].
    cbn [attach fst snd]. destruct (sameCapability (Some b) c) eqn:Hs.
    + apply sameCapability_eq in Hs; subst c. reflexivity.
    + reflexivity.
  - destruct (groups cap rest) as [|[c run] more]; reflexivity.
Qed.

Lemma defined_members layers b run l :
  In (b, run) (definedRuns (groups cap layers)) -> In l run ->
  cap l = Some b.
Proof.
  intros Hrun Hl. unfold definedRuns in Hrun.
  apply in_flat_map in Hrun as ([c r] & Hg & Hin).
  pose proof (groups_ok layers) as Hok.
  rewrite Forall_forall in Hok. destruct (Hok _ Hg) as [_ Hall].
  destruct c as [b'|]; [|contradiction].
  destruct Hin as [Heq|[]]. inversion Heq; subst.
  rewrite Forall_forall in Hall. exact (Hall _ Hl).
Qed.

Lemma all_native_groups layers :
  layers <> [] -> Forall (fun l => cap l = Some true) layers ->
  groups cap layers = [(Some true, layers)].
Proof.
  induction layers as [|l rest IH]; [congruence|].
  intros _ Hall. inversion Hall as [|? ? Hl Hrest]; subst.
  cbn [groups]. rewrite Hl. destruct rest as [|l' rest'].
  - reflexivity.
  - rewrite IH by (congruence || assumption). reflexivity.
Qed.





End Groups.

Section Runs.

Variable E : Env.t.

Lemma definedRuns_cons g gs :
  definedRuns (g :: gs)
  = (match g with (Some b, run) => [(b, run)] | (None, _) => [] end
     ++ definedRuns gs)%list.
Proof. reflexivity. Qed.

Lemma pushList_pipe st :
  MergeState.renderPipe (pushList st)
  = (map runFn (definedRuns
                  [(MergeState.useNative st, MergeState.currentList st)])
     ++ MergeState.renderPipe st)%list.
Proof.
  unfold pushList. destruct (MergeState.useNative st); reflexivity.
Qed.

(** The pipe after the loop, from any state: the list in progress and the
    layers still to come are grouped, the groups without a capability are
    left out, and the others are put in front of the pipe, last group
    first. *)
Lemma merge_loop_pipe (layers : list LayerData.t) :
  forall st, layers <> [] ->
  MergeState.renderPipe (merge_loop E layers st)
  = (map runFn
       (rev (definedRuns
               (attach (MergeState.useNative st, MergeState.currentList st)
                  (groups (capability E) layers))))
     ++ MergeState.renderPipe st)%list.
Proof.
  induction layers as [|l rest IH]; [congruence|].
  intros [u cur pipe] _. cbn [merge_loop MergeState.useNative
    MergeState.currentList MergeState.renderPipe groups].
  fold (capability E l). rewrite loop_test.
  destruct (sameCapability u (capability E l)) eqn:Hsame; cbn [negb].
  - cbn [MergeState.useNative MergeState.currentList MergeState.renderPipe].
    rewrite attach_attach by assumption.
    apply sameCapability_eq in Hsame as <-.
    destruct rest as [|l' rest'].
    + cbn [merge_loop]. rewrite pushList_pipe. cbn.
      destruct u; reflexivity.
    + rewrite IH by congruence. reflexivity.
  - rewrite attach_fresh by assumption.
    rewrite definedRuns_cons, rev_app_distr, map_app, <- app_assoc.
    assert (MergeState.renderPipe (pushList (MergeState.mk u cur pipe))
            = (map runFn
                 (rev match u with
                      | Some b => [(b, cur)]
                      | None => []
                      end) ++ pipe)%list) as Hpush.
    { rewrite pushList_pipe. cbn. destruct u; reflexivity. }
    assert (MergeState.useNative (pushList (MergeState.mk u cur pipe)) = u)
      as Hu by (unfold pushList; cbn; destruct u; reflexivity).
    destruct rest as [|l' rest'].
    + cbn [merge_loop groups attach]. rewrite pushList_pipe.
      cbn [MergeState.useNative MergeState.currentList MergeState.renderPipe
           app].
      rewrite Hpush. cbn [attach fst snd].
      fold (capability E l). destruct (capability E l); reflexivity.
    + rewrite IH by congruence.
      cbn [MergeState.useNative MergeState.currentList MergeState.renderPipe
           app].
      rewrite Hpush.
      reflexivity.
Qed.

(** The pipe that [merge] runs: after [async.compose] has turned it round,
    the base canvas and then the groups that have a capability, in the order
    of the layers. *)
Lemma merge_pipe (layers : list LayerData.t) (pipe : list PipeFn) :
  MergeState.renderPipe (merge_loop E layers (MergeState.mk None [] pipe))
  = (map runFn (rev (definedRuns (groups (capability E) layers)))
     ++ pipe)%list.
Proof.
  destruct layers as [|l rest]; [reflexivity|].
  rewrite merge_loop_pipe by congruence.
  cbn [MergeState.useNative MergeState.currentList MergeState.renderPipe].
  destruct (attach_head (capability E l, [l]) (groups (capability E) rest))
    as (run & more & Hhead).
  change (groups (capability E) (l :: rest))
    with (attach (capability E l, [l]) (groups (capability E) rest)).
  rewrite Hhead. reflexivity.
Qed.

Lemma pipeRuns_runs (runs : list (bool * list LayerData.t))
  (seed : HtmlCanvas.t) :
  pipeRuns (map runFn (rev runs) ++ [seedFn seed]) = runs.
Proof.
  unfold pipeRuns. rewrite flat_map_app. cbn [flat_map]. rewrite app_nil_r.
  rewrite <- (rev_involutive runs) at 2. f_equal.
  induction (rev runs) as [|[b run] rs IH]; [reflexivity|].
  cbn. now rewrite IH.
Qed.

(** [async.compose] on a pipe runs the functions of the pipe from the last
    to the first. *)
Lemma async_compose_runs (iCanvas : ImageCanvas)
  (runs : list (bool * list LayerData.t)) :
  forall (fns : list Stage) (x : JsCanvas) (cb : Callback JsCanvas),
  async_compose (map (pipeStage E iCanvas) (map runFn (rev runs)) ++ fns) x cb
  = async_compose fns x (fun y => runInOrder E iCanvas runs y cb).
Proof.
  induction runs as [|[b run] runs IH]; intros fns x cb.
  - reflexivity.
  - cbn [rev]. rewrite !map_app, <- app_assoc. cbn [map app].
    rewrite IH. reflexivity.
Qed.

(** [merge] draws the base layer and then runs the groups that have a
    capability one after the other, in the order of the layers. *)
Lemma merge_runs (iCanvas : ImageCanvas) (base : LayerData.t)
  (rest : list LayerData.t) (cb : Callback JsCanvas) :
  merge E iCanvas (base :: rest) cb
  = (seed <- singleLayerWithOpacity E iCanvas base ;;
     runInOrder E iCanvas (definedRuns (groups (capability E) rest))
       (Some seed) cb).
Proof.
  unfold merge. apply bind_ext. intros seed.
  rewrite merge_pipe, map_app. cbn [map].
  rewrite async_compose_runs. reflexivity.
Qed.

End Runs.

(** ** What a stage of the pipe does *)

Lemma subseq_refl {A} (l : list A) : subseq l l.
Proof. induction l; constructor; assumption. Qed.

Lemma subseq_nil_l {A} (l : list A) : subseq [] l.
Proof. induction l; constructor; assumption. Qed.

Lemma subseq_app {A} (s1 l1 s2 l2 : list A) :
  subseq s1 l1 -> subseq s2 l2 -> subseq (s1 ++ s2) (l1 ++ l2).
Proof.
  induction 1 as [|x s l H IH|x s l H IH]; intros H2; cbn.
  - assumption.
  - apply subseq_skip. auto.
  - apply subseq_take. auto.
Qed.

Lemma subseq_app_l {A} (s l l' : list A) : subseq s l -> subseq s (l ++ l').
Proof.
  intros H. rewrite <- (app_nil_r s). apply subseq_app; [assumption|].
  apply subseq_nil_l.
Qed.

Lemma drawnLayers_app (l1 l2 : list Event) :
  drawnLayers (l1 ++ l2) = (drawnLayers l1 ++ drawnLayers l2)%list.
Proof. apply flat_map_app. Qed.

Lemma drawnLayers_blend (mode : string) (o : LayerOptions.t)
  (log : list Event) :
  drawnLayers (EvBlend mode o :: log) = drawnLayers log.
Proof. reflexivity. Qed.

Lemma bind_inr {A B} (log : list Event) (a : A) (f : A -> M B) :
  bind (log, inr a) f = ((log ++ fst (f a))%list, snd (f a)).
Proof. unfold bind. destruct (f a). reflexivity. Qed.

Section Stages.

Variable E : Env.t.
Variable iCanvas : ImageCanvas.

Lemma singleLayerWithOpacity_draws (layer : LayerData.t) :
  exists log canvas,
    singleLayerWithOpacity E iCanvas layer = (log, inr canvas)
    /\ drawnLayers log = [drawKey layer].
Proof.
  unfold singleLayerWithOpacity, createElement_canvas, ctx_drawImage.
  unfold bind, emit, ret. cbn. do 2 eexists. split; reflexivity.
Qed.

Lemma mergeNativeBlend_step_draws (canvas : HtmlCanvas.t)
  (layer : LayerData.t) :
  exists log canvas',
    mergeNativeBlend_step E iCanvas canvas layer = (log, inr canvas')
    /\ drawnLayers log = [drawKey layer]
    /\ ~ In EvPutImageData log.
Proof.
  unfold mergeNativeBlend_step, ctx_drawImage, bind, emit, ret. cbn.
  do 2 eexists. split; [reflexivity|]. split; [reflexivity|].
  intros [H|[]]. discriminate.
Qed.

Lemma mergeNativeBlend_loop_draws (layerData : list LayerData.t) :
  forall canvas,
  exists log canvas',
    mergeNativeBlend_loop E iCanvas layerData canvas = (log, inr canvas')
    /\ drawnLayers log = map drawKey layerData
    /\ ~ In EvPutImageData log.
Proof.
  induction layerData as [|layer rest IH]; intros canvas.
  - exists [], canvas. cbn. auto.
  - destruct (mergeNativeBlend_step_draws canvas layer)
      as (log1 & c1 & H1 & D1 & P1).
    destruct (IH c1) as (log2 & c2 & H2 & D2 & P2).
    exists (log1 ++ log2)%list, c2. cbn [mergeNativeBlend_loop].
    rewrite H1, bind_inr, H2. cbn [fst snd]. split; [reflexivity|].
    split.
    + rewrite drawnLayers_app, D1, D2. reflexivity.
    + rewrite in_app_iff. tauto.
Qed.

Lemma getTransformedLayerData_draws (layer : LayerData.t) (rect : Rect.t) :
  exists log data,
    getTransformedLayerData E iCanvas layer rect = (log, inr data)
    /\ drawnLayers log = [drawKey layer]
    /\ ~ In EvPutImageData log.
Proof.
  unfold getTransformedLayerData, createElement_canvas, ctx_drawImage,
    ctx_getImageData, bind, emit, ret. cbn.
  do 2 eexists. split; [reflexivity|]. split; [reflexivity|].
  intros [H|[H|[H|[]]]]; discriminate.
Qed.

Lemma mergeManualBlend_loop_draws (layerData : list LayerData.t) :
  forall i baseData outData,
  exists s,
    subseq s layerData
    /\ draws E (mergeManualBlend_loop E iCanvas layerData i baseData outData) s.
Proof.
  induction layerData as [|layer rest IH]; intros i baseData outData.
  - exists []. split; [constructor|]. unfold draws. cbn.
    repeat split; eauto.
  - cbn [mergeManualBlend_loop]. cbv zeta.
    destruct (ltb 0 (Rect.width (calcLayerRect E iCanvas layer))
              && ltb 0 (Rect.height (calcLayerRect E iCanvas layer)))%bool.
    + set (bo := if Nat.ltb 0 i then _ else _). destruct bo as [b o].
      destruct (getTransformedLayerData_draws layer
                  (calcLayerRect E iCanvas layer))
        as (log1 & data & H1 & D1 & P1).
      rewrite H1, bind_inr.
      destruct (Env.blend E (LayerData.blendmode layer)) as [fn|] eqn:Hfn.
      * match goal with
        | |- context [mergeManualBlend_loop E iCanvas rest ?j ?b' ?o'] =>
            destruct (IH j b' o') as (s & Hs & D & P & R)
        end.
        exists (layer :: s). split; [now constructor|].
        rewrite bind_emit. unfold draws, events, outcome in *.
        cbn [fst snd]. split; [|split].
        -- rewrite drawnLayers_app, D1, drawnLayers_blend, D. reflexivity.
        -- rewrite in_app_iff. intros [H|[H|H]]; [tauto|discriminate|tauto].
        -- exact R.
      * exists [layer]. split; [constructor; apply subseq_nil_l|].
        unfold draws, events, outcome. cbn [fst snd throw].
        rewrite app_nil_r. split; [assumption|]. split; [assumption|].
        right. eauto.
    + destruct (IH (S i) baseData outData) as (s & Hs & D).
      exists s. split; [now constructor|assumption].
Qed.

Lemma mergeManualBlend_loop_throws (layerData : list LayerData.t) :
  Exists (offending E iCanvas) layerData ->
  forall i baseData outData,
  exists mode,
    Env.blend E mode = None
    /\ outcome (mergeManualBlend_loop E iCanvas layerData i baseData outData)
       = inl (NoSuchBlendMode mode).
Proof.
  induction layerData as [|layer rest IH]; intros Hex i baseData outData.
  - inversion Hex.
  - cbn [mergeManualBlend_loop]. cbv zeta.
    fold (positiveArea (calcLayerRect E iCanvas layer)).
    destruct (positiveArea (calcLayerRect E iCanvas layer)) eqn:Harea.
    + set (bo := if Nat.ltb 0 i then _ else _). destruct bo as [b o].
      destruct (getTransformedLayerData_draws layer
                  (calcLayerRect E iCanvas layer))
        as (log1 & data & H1 & _).
      rewrite H1, bind_inr. unfold outcome. cbn [snd].
      destruct (Env.blend E (LayerData.blendmode layer)) as [fn|] eqn:Hfn.
      * rewrite bind_emit. cbn [snd]. apply IH.
        inversion Hex as [? ? [_ Hbad]|]; subst; [congruence|assumption].
      * exists (LayerData.blendmode layer). split; [assumption|reflexivity].
    + apply IH.
      inversion Hex as [? ? [Hpos _]|]; subst; [congruence|assumption].
Qed.

Lemma mergeNativeBlend_composites (layerData : list LayerData.t)
  (canvas : HtmlCanvas.t) :
  composites E (mergeNativeBlend E iCanvas layerData (Some canvas)) layerData.
Proof.
  destruct (mergeNativeBlend_loop_draws layerData canvas)
    as (log & c' & H & D & _).
  exists log, layerData. split; [apply subseq_refl|]. split; [assumption|].
  left. exists c'. intros k. unfold mergeNativeBlend.
  rewrite H, bind_inr, bind_emits. reflexivity.
Qed.

Lemma mergeManualBlend_composites (layerData : list LayerData.t)
  (canvas : HtmlCanvas.t) :
  composites E (mergeManualBlend E iCanvas layerData (Some canvas)) layerData.
Proof.
  set (width := ICanvas.width iCanvas). set (height := ICanvas.height iCanvas).
  assert (exists ev outData,
            createImageData E canvas width height = ([ev], inr outData)
            /\ drawnLayers [ev] = []) as (ev & outData & Hc & Dc).
  { unfold createImageData, ctx_getImageData.
    destruct (Env.hasCreateImageData E); do 2 eexists; split; reflexivity. }
  set (baseData :=
         ImageData.mk width height
           (Env.getImageData E canvas 0 0 width height)).
  destruct (mergeManualBlend_loop_draws layerData 0 baseData outData)
    as (s & Hs & D & P & R).
  destruct (mergeManualBlend_loop E iCanvas layerData 0 baseData outData)
    as [log r] eqn:Hloop.
  unfold events, outcome in *. cbn [fst snd] in *.
  assert (forall k,
            mergeManualBlend E iCanvas layerData (Some canvas) k
            = (emits [EvGetImageData width height; ev] ;;;
               (bo <- (log, r) ;;
                canvas <- ctx_putImageData E canvas (snd bo) 0 0 ;;
                k (Some canvas)))) as Hrun.
  { intros k. unfold mergeManualBlend, ctx_getImageData at 1.
    fold width height. rewrite bind_assoc, bind_emit, bind_ret.
    fold baseData. rewrite Hc, bind_inr, Hloop, bind_emits. reflexivity. }
  destruct R as [[bo ->]|[mode [Hmode ->]]].
  - exists
      (EvGetImageData width height :: ev :: log ++ [EvPutImageData])%list,
      s.
    split; [assumption|]. split.
    + change (EvGetImageData width height :: ev :: log ++ [EvPutImageData])%list
        with ([EvGetImageData width height] ++ [ev]
              ++ log ++ [EvPutImageData])%list.
      rewrite !drawnLayers_app, Dc, D. cbn. now rewrite app_nil_r.
    + left. eexists. intros k. rewrite Hrun, bind_inr.
      unfold ctx_putImageData. rewrite bind_assoc, bind_emit, bind_ret.
      rewrite !bind_emits. cbn [fst snd app].
      rewrite <- app_assoc. reflexivity.
  - exists (EvGetImageData width height :: ev :: log)%list, s.
    split; [assumption|]. split.
    + change (EvGetImageData width height :: ev :: log)%list
        with ([EvGetImageData width height] ++ [ev] ++ log)%list.
      rewrite !drawnLayers_app, Dc, D. reflexivity.
    + right. exists mode. split; [assumption|]. intros k.
      rewrite Hrun, bind_emits. reflexivity.
Qed.

Lemma mergeManualBlend_raises (layerData : list LayerData.t)
  (canvas : HtmlCanvas.t) :
  Exists (offending E iCanvas) layerData ->
  exists log mode,
    raises E (mergeManualBlend E iCanvas layerData (Some canvas)) log mode
    /\ ~ In EvPutImageData log.
Proof.
  intros Hex.
  set (width := ICanvas.width iCanvas). set (height := ICanvas.height iCanvas).
  assert (exists ev outData,
            createImageData E canvas width height = ([ev], inr outData)
            /\ ev <> EvPutImageData) as (ev & outData & Hc & Dc).
  { unfold createImageData, ctx_getImageData.
    destruct (Env.hasCreateImageData E); do 2 eexists;
      (split; [reflexivity|discriminate]). }
  set (baseData :=
         ImageData.mk width height
           (Env.getImageData E canvas 0 0 width height)).
  destruct (mergeManualBlend_loop_draws layerData 0 baseData outData)
    as (s & _ & _ & P & _).
  destruct (mergeManualBlend_loop_throws layerData Hex 0 baseData outData)
    as (mode & Hmode & Hout).
  destruct (mergeManualBlend_loop E iCanvas layerData 0 baseData outData)
    as [log r] eqn:Hloop.
  unfold events, outcome in *. cbn [fst snd] in *. subst r.
  exists (EvGetImageData width height :: ev :: log)%list, mode.
  split; [split; [assumption|]|].
  - intros k. unfold mergeManualBlend, ctx_getImageData at 1.
    fold width height. rewrite bind_assoc, bind_emit, bind_ret.
    fold baseData. rewrite Hc, bind_inr, Hloop. reflexivity.
  - intros [H|[H|H]]; [discriminate|congruence|tauto].
Qed.

Lemma pipeStage_composites (b : bool) (run : list LayerData.t)
  (canvas : HtmlCanvas.t) :
  composites E (pipeStage E iCanvas (blendFn b run) (Some canvas)) run.
Proof.
  destruct b; cbn [pipeStage].
  - apply mergeNativeBlend_composites.
  - apply mergeManualBlend_composites.
Qed.

(** The runs of a pipe, run in order, draw layers of the runs in the order
    of the runs and, in a run, in the order of its layers. *)
Lemma runInOrder_composites (runs : list (bool * list LayerData.t)) :
  forall canvas,
  composites E (runInOrder E iCanvas runs (Some canvas))
    (List.concat (map snd runs)).
Proof.
  induction runs as [|[b run] runs IH]; intros canvas.
  - exists [], []. split; [constructor|]. split; [reflexivity|].
    left. exists canvas. intros k. cbn [runInOrder]. now rewrite emits_nil.
  - destruct (pipeStage_composites b run canvas)
      as (log1 & s1 & Hs1 & D1 & [[c1 Hok]|[mode Hbad]]).
    + destruct (IH c1) as (log2 & s2 & Hs2 & D2 & R2).
      exists (log1 ++ log2)%list, (s1 ++ s2)%list. cbn [map List.concat snd].
      split; [now apply subseq_app|]. split.
      * now rewrite drawnLayers_app, map_app, D1, D2.
      * destruct R2 as [[c2 Hok2]|[mode [Hmode Hbad2]]].
        -- left. exists c2. intros k. cbn [runInOrder].
           rewrite Hok, Hok2, emits_app. reflexivity.
        -- right. exists mode. split; [assumption|]. intros k.
           cbn [runInOrder]. rewrite Hok, Hbad2, bind_emits. reflexivity.
    + exists log1, s1. cbn [map List.concat snd].
      split; [now apply subseq_app_l|]. split; [assumption|].
      right. exists mode. destruct Hbad as [Hmode Hbad].
      split; [assumption|]. intros k. cbn [runInOrder]. apply Hbad.
Qed.

(** A pipe with a manual run that has an offending layer throws, whatever
    is called back. *)
Lemma runInOrder_raises (runs : list (bool * list LayerData.t)) :
  Exists (fun r => fst r = false /\ Exists (offending E iCanvas) (snd r))
    runs ->
  forall canvas,
  exists log mode, raises E (runInOrder E iCanvas runs (Some canvas)) log mode.
Proof.
  induction runs as [|[b run] runs IH]; intros Hex canvas.
  - inversion Hex.
  - inversion Hex as [? ? [Hb Hrun]|? ? Hrest]; subst; cbn [fst snd] in *.
    + subst b.
      destruct (mergeManualBlend_raises run canvas Hrun)
        as (log & mode & [Hmode Hbad] & _).
      exists log, mode. split; [assumption|]. intros k.
      cbn [runInOrder pipeStage]. apply Hbad.
    + destruct (pipeStage_composites b run canvas)
        as (log1 & s1 & _ & _ & [[c1 Hok]|[mode [Hmode Hbad]]]).
      * destruct (IH Hrest c1) as (log2 & mode & Hmode & Hbad).
        exists (log1 ++ log2)%list, mode. split; [assumption|]. intros k.
        cbn [runInOrder]. rewrite Hok, Hbad, bind_emits. reflexivity.
      * exists log1, mode. split; [assumption|]. intros k.
        cbn [runInOrder]. apply Hbad.
Qed.

End Stages.

(** ** The blend compositor *)

Section Compositor.

Variable E : Env.t.
Variable iCanvas : ImageCanvas.



(** The layers that [merge] draws are the base layer and layers that have
    a capability, in the order of the layers. *)
Lemma merge_draws (base : LayerData.t) (rest : list LayerData.t) :
  exists done,
    subseq done
      (base :: filter (fun l => negb (is_undefined (capability E l))) rest)
    /\ drawnLayers
         (events (merge E iCanvas (base :: rest) (fun _ => ret tt)))
       = map drawKey done.
Proof.
  rewrite merge_runs.
  destruct (singleLayerWithOpacity_draws E iCanvas base)
    as (log0 & seed & Hseed & D0).
  destruct (runInOrder_composites E iCanvas
              (definedRuns (groups (capability E) rest)) seed)
    as (log & s & Hs & D & R).
  rewrite defined_concat in Hs.
  exists (base :: s). split; [now constructor|].
  rewrite Hseed, bind_inr. unfold events. cbn [fst].
  rewrite drawnLayers_app, D0.
  destruct R as [[c Hok]|[mode [_ Hbad]]].
  - rewrite Hok, bind_emits. cbn [fst ret]. rewrite app_nil_r, D.
    reflexivity.
  - rewrite Hbad. cbn [fst]. rewrite D. reflexivity.
Qed.

End Compositor.


(** C9.  A layer above the base whose blend mode the table of native modes
    does not have is in no function that the loop of [merge] puts in the
    pipe; the runs of the pipe are, together, the layers that have a
    capability; the omitted layers are never drawn; and when no layer above
    the base has a capability, [merge] does what the compositor does for the
    base layer alone, and throws nothing for the others. *)
Theorem merge_omits_unknown_modes (E : Env.t) (iCanvas : ImageCanvas)
  (base : LayerData.t) (rest : list LayerData.t) (l : LayerData.t)
  (Hin : In l rest) (Hcap : capability E l = None) :
  (forall seed b run,
     In (blendFn b run)
       (MergeState.renderPipe
          (merge_loop E rest (MergeState.mk None [] [seedFn seed]))) ->
     ~ In l run)
  /\ (forall seed,
        List.concat
          (map snd
             (pipeRuns
                (MergeState.renderPipe
                   (merge_loop E rest
                      (MergeState.mk None [] [seedFn seed])))))
        = filter (fun l => negb (is_undefined (capability E l))) rest)
  /\ (exists done,
        subseq done
          (base
           :: filter (fun l => negb (is_undefined (capability E l))) rest)
        /\ drawnLayers
             (events (merge E iCanvas (base :: rest) (fun _ => ret tt)))
           = map drawKey done)
  /\ (Forall (fun l => capability E l = None) rest ->
      forall cb,
        merge E iCanvas (base :: rest) cb
        = composite E iCanvas [base] cb).
Proof.
  split; [|split; [|split]].
  - intros seed b run Hpipe Hrun. rewrite merge_pipe in Hpipe.
    apply in_app_iff in Hpipe as [Hpipe|[Hseed|[]]]; [|discriminate].
    apply in_map_iff in Hpipe as ([b' run'] & Heq & Hr).
    inversion Heq; subst. apply in_rev in Hr.
    pose proof (defined_members _ _ _ _ _ Hr Hrun) as Hl.
    unfold capability in *. congruence.
  - intros seed. rewrite merge_pipe, pipeRuns_runs. apply defined_concat.
  - apply merge_draws.
  - intros Hnone cb. rewrite merge_runs. cbn [composite].
    apply bind_ext. intros seed.
    assert (definedRuns (groups (capability E) rest) = []) as ->.
    { clear Hin. induction Hnone as [|l' rest' Hl' _ IH]; [reflexivity|].
      cbn [groups]. rewrite Hl'.
      destruct (groups (capability E) rest') as [|[c r] more];
        [reflexivity|].
      cbn [attach fst sameCapability].
      change (definedRuns ((None, [l']) :: (c, r) :: more))
        with (definedRuns ((c, r) :: more)).
      exact IH. }
    reflexivity.
Qed.

Lemma merge_omits_unknown_modes_witness :
  In Sample.hue [Sample.placement "multiply" 0; Sample.hue]
  /\ capability Sample.env Sample.hue = None
  /\ forall b run,
       In (blendFn b run)
         (MergeState.renderPipe
            (merge_loop Sample.env [Sample.placement "multiply" 0; Sample.hue]
               (MergeState.mk None [] [seedFn Sample.red]))) ->
       ~ In Sample.hue run.
Proof.
  assert (In Sample.hue [Sample.placement "multiply" 0; Sample.hue]) as Hin
    by (right; left; reflexivity).
  assert (capability Sample.env Sample.hue = None) as Hcap by reflexivity.
  split; [exact Hin|]. split; [exact Hcap|].
  exact (proj1 (merge_omits_unknown_modes Sample.env Sample.onePixel
                  (Sample.placement "source-over" 0)
                  [Sample.placement "multiply" 0; Sample.hue] Sample.hue
                  Hin Hcap)
           Sample.red).
Defined.

(** C2, as the code has it.  When a manual run has a layer whose rectangle
    on the canvas has a positive area and whose blend mode is not in the
    registry of blend functions, [mergeManualBlend] throws the error for an
    unregistered blend mode, whatever the callback: the callback is never
    called and nothing is put on the canvas.  And when the loop of [merge]
    has put that run in the pipe, the compositor throws such an error and
    hands no canvas to its callback. *)
Theorem mergeManualBlend_unregistered_mode (E : Env.t)
  (iCanvas : ImageCanvas) (run : list LayerData.t) (l : LayerData.t)
  (Hin : In l run)
  (Harea : positiveArea (calcLayerRect E iCanvas l) = true)
  (Hblend : Env.blend E (LayerData.blendmode l) = None) :
  (forall canvas,
     exists log mode,
       Env.blend E mode = None
       /\ (forall cb,
             mergeManualBlend E iCanvas run (Some canvas) cb
             = (log, inl (NoSuchBlendMode mode)))
       /\ ~ In EvPutImageData log)
  /\ forall base rest,
       In (blendFn false run)
         (MergeState.renderPipe
            (merge_loop E rest (MergeState.mk None [] []))) ->
       exists log mode,
         Env.blend E mode = None
         /\ forall cb,
              composite E iCanvas (base :: rest) cb
              = (log, inl (NoSuchBlendMode mode)).
Proof.
  assert (Exists (offending E iCanvas) run) as Hex.
  { apply Exists_exists. exists l. split; [assumption|]. split; assumption. }
  split.
  - intros canvas.
    destruct (mergeManualBlend_raises E iCanvas run canvas Hex)
      as (log & mode & [Hmode Hbad] & Hput).
    exists log, mode. auto.
  - intros base rest Hpipe. rewrite merge_pipe, app_nil_r in Hpipe.
    apply in_map_iff in Hpipe as ([b run'] & Heq & Hr).
    inversion Heq; subst. apply in_rev in Hr.
    destruct (singleLayerWithOpacity_draws E iCanvas base)
      as (log0 & seed & Hseed & _).
    destruct (runInOrder_raises E iCanvas
                (definedRuns (groups (capability E) rest))
                ltac:(apply Exists_exists; exists (false, run); auto) seed)
      as (log & mode & Hmode & Hbad).
    exists (log0 ++ log)%list, mode. split; [assumption|]. intros cb.
    assert (composite E iCanvas (base :: rest) cb
            = merge E iCanvas (base :: rest) cb) as ->.
    { destruct rest as [|l' rest']; [|reflexivity].
      cbn in Hr. contradiction. }
    rewrite merge_runs, Hseed, bind_inr, Hbad. reflexivity.
Qed.

Lemma mergeManualBlend_unregistered_mode_witness :
  In (Sample.screen 0) [Sample.screen 0]
  /\ positiveArea
       (calcLayerRect Sample.env Sample.onePixel (Sample.screen 0)) = true
  /\ Env.blend Sample.env (LayerData.blendmode (Sample.screen 0)) = None
  /\ exists log mode,
       Env.blend Sample.env mode = None
       /\ composite Sample.env Sample.onePixel
            [Sample.placement "source-over" 0; Sample.screen 0]
            (fun _ => ret tt)
          = (log, inl (NoSuchBlendMode mode)).
Proof.
  assert (In (Sample.screen 0) [Sample.screen 0]) as Hin
    by (left; reflexivity).
  split; [exact Hin|]. split; [reflexivity|]. split; [reflexivity|].
  destruct (proj2 (mergeManualBlend_unregistered_mode Sample.env
                     Sample.onePixel [Sample.screen 0] (Sample.screen 0)
                     Hin eq_refl eq_refl)
              (Sample.placement "source-over" 0) [Sample.screen 0]
              ltac:(left; reflexivity))
    as (log & mode & Hmode & Hthrow).
  exists log, mode. split; [exact Hmode|]. exact (Hthrow (fun _ => ret tt)).
Defined.

(** A manual run whose only layer has a blend mode that is not registered
    and lies right of the canvas: its rectangle has no area, the registry
    is not consulted, and the compositor throws nothing and calls back. *)
Lemma unregistered_mode_off_canvas_not_raised :
  Env.blend Sample.env (LayerData.blendmode (Sample.screen (int 2))) = None
  /\ In (blendFn false [Sample.screen (int 2)])
       (MergeState.renderPipe
          (merge_loop Sample.env [Sample.screen (int 2)]
             (MergeState.mk None [] [])))
  /\ outcome
       (composite Sample.env Sample.onePixel
          [Sample.placement "source-over" 0; Sample.screen (int 2)]
          (fun _ => ret tt))
     = inr tt.
Proof.
  split; [reflexivity|]. split; [left; reflexivity|]. vm_compute. reflexivity.
Qed.

(** ** Layers of no area in a manual run *)

Lemma mergeManualBlend_loop_skips (E : Env.t) (iCanvas : ImageCanvas)
  (layerData : list LayerData.t) :
  Forall (fun l => positiveArea (calcLayerRect E iCanvas l) = false)
    layerData ->
  forall i baseData outData,
    mergeManualBlend_loop E iCanvas layerData i baseData outData
    = ret (baseData, outData).
Proof.
  induction 1 as [|l rest Hl _ IH]; intros i baseData outData.
  - reflexivity.
  - cbn [mergeManualBlend_loop]. cbv zeta.
    fold (positiveArea (calcLayerRect E iCanvas l)). rewrite Hl. apply IH.
Qed.

(** With a context that has [createImageData], a manual run in which no
    layer has an area puts the new, empty image data on the canvas. *)
Lemma mergeManualBlend_no_area (E : Env.t) (iCanvas : ImageCanvas)
  (layerData : list LayerData.t) (canvas : HtmlCanvas.t)
  (cb : Callback JsCanvas) :
  Env.hasCreateImageData E = true ->
  Forall (fun l => positiveArea (calcLayerRect E iCanvas l) = false)
    layerData ->
  let width := ICanvas.width iCanvas in
  let height := ICanvas.height iCanvas in
  mergeManualBlend E iCanvas layerData (Some canvas) cb
  = (emits [ EvGetImageData width height; EvCreateImageData width height;
             EvPutImageData ] ;;;
     cb (Some
           (HtmlCanvas.withPixels
              (Env.putImageData E canvas
                 (ImageData.mk width height (Env.blank E width height)) 0 0)
              canvas))).
Proof.
  intros Hcreate Hall width height.
  unfold mergeManualBlend, ctx_getImageData at 1. fold width height.
  rewrite bind_assoc, bind_emit, bind_ret.
  unfold createImageData. rewrite Hcreate.
  rewrite bind_assoc, bind_emit, bind_ret.
  rewrite mergeManualBlend_loop_skips by assumption.
  rewrite bind_ret. unfold ctx_putImageData.
  rewrite bind_assoc, bind_emit, bind_ret, bind_emits.
  reflexivity.
Qed.

(** C4, which the code does not meet.  On a canvas of one red pixel, with
    a context that has [createImageData]: a manual run whose only layer
    lies right of the canvas, so that its rectangle has no area, does not
    leave the canvas as it was but clears it; and a run of that layer
    followed by a layer on the canvas blends the second over an empty base,
    not over the canvas, so that the outcome differs from that of the run
    without the first layer. *)
Theorem mergeManualBlend_no_area_not_skipped :
  positiveArea
    (calcLayerRect Sample.env Sample.onePixel
       (Sample.placement "multiply" (int 2))) = false
  /\ (forall cb,
        mergeManualBlend Sample.env Sample.onePixel
          [Sample.placement "multiply" (int 2)] (Some Sample.red) cb
        = (emits [EvGetImageData 1 1; EvCreateImageData 1 1; EvPutImageData]
           ;;; cb (Some (HtmlCanvas.withPixels [0; 0; 0; 0]%N Sample.red))))
  /\ HtmlCanvas.pixels Sample.red = [255; 0; 0; 255]%N
  /\ (exists log,
        forall cb,
          mergeManualBlend Sample.env Sample.onePixel
            [Sample.placement "multiply" (int 2);
             Sample.placement "multiply" 0] (Some Sample.red) cb
          = (emits log ;;;
             cb (Some (HtmlCanvas.withPixels [0; 0; 0; 0]%N Sample.red))))
  /\ (exists log,
        forall cb,
          mergeManualBlend Sample.env Sample.onePixel
            [Sample.placement "multiply" 0] (Some Sample.red) cb
          = (emits log ;;;
             cb (Some (HtmlCanvas.withPixels [0; 0; 0; 255]%N Sample.red)))).
Proof.
  split; [reflexivity|]. split; [|split; [reflexivity|split]].
  - intros cb.
    rewrite mergeManualBlend_no_area;
      [reflexivity|reflexivity|repeat constructor].
  - exists (events
              (mergeManualBlend Sample.env Sample.onePixel
                 [Sample.placement "multiply" (int 2);
                  Sample.placement "multiply" 0] (Some Sample.red)
                 (fun _ => ret tt))).
    intros cb. vm_compute. destruct (cb _). reflexivity.
  - exists (events
              (mergeManualBlend Sample.env Sample.onePixel
                 [Sample.placement "multiply" 0] (Some Sample.red)
                 (fun _ => ret tt))).
    intros cb. vm_compute. destruct (cb _). reflexivity.
Qed.

(** * Further properties *)

(** ** Rectangles *)

Lemma Math_max_cases a b :
  (a <= b /\ Math_max a b = b) \/ (b <= a /\ Math_max a b = a).
Proof.
  unfold Math_max. destruct (ltb a b) eqn:H; tests.
  - left. auto using Qclt_le_weak.
  - right. auto.
Qed.

Lemma Math_min_cases a b :
  (a <= b /\ Math_min a b = a) \/ (b <= a /\ Math_min a b = b).
Proof.
  unfold Math_min. destruct (ltb b a) eqn:H; tests.
  - right. auto using Qclt_le_weak.
  - left. auto.
Qed.

(** On one axis: the interval that [rectIntersect] computes has the points
    that the two intervals share. *)
Lemma interval_meet (a wa b wb p : Qc) :
  (Math_max a b <= p
   /\ p < Math_max a b
          + Math_max (Math_min (a + wa) (b + wb) - Math_max a b) 0)
  <-> (a <= p /\ p < a + wa) /\ (b <= p /\ p < b + wb).
Proof.
  destruct (Math_min_cases (a + wa) (b + wb)) as [[H1 ->]|[H1 ->]];
    destruct (Math_max_cases a b) as [[H2 ->]|[H2 ->]];
    match goal with
    | |- context [Math_max ?u 0] =>
        destruct (Math_max_cases u 0) as [[H3 ->]|[H3 ->]]
    end;
    (split; [intros (I1 & I2)|intros [(I1 & I2) (I3 & I4)]];
     repeat split; qc2q; Lqa.lra).
Qed.

(** X1.  A point is inside the intersection of two rectangles exactly when
    it is inside both: the rectangle that [rectIntersect] computes has the
    points the two rectangles share, and none when they do not overlap. *)
Theorem rectIntersect_points (A B : Rect.t) (px py : Qc) :
  inside px py (rectIntersect A B) <-> inside px py A /\ inside px py B.
Proof.
  unfold inside, rectIntersect; cbn [Rect.x Rect.y Rect.width Rect.height].
  pose proof (interval_meet (Rect.x A) (Rect.width A) (Rect.x B)
                (Rect.width B) px) as Hx.
  pose proof (interval_meet (Rect.y A) (Rect.height A) (Rect.y B)
                (Rect.height B) py) as Hy.
  tauto.
Qed.

(** The bounds that the loop of [transformRect] keeps, once set: they only
    widen, they hold every corner still to come, and each is the bound it
    started from or a coordinate of such a corner. *)
Lemma transformRect_loop_bounds (E : Env.t) (t : list TOp)
  (points : list Point.t) :
  forall i minx miny maxx maxy,
  i <> 0%nat -> minx <= maxx -> miny <= maxy ->
  match transformRect_loop E t points i minx miny maxx maxy with
  | (a, b, c, d) =>
      (a <= minx /\ maxx <= c /\ b <= miny /\ maxy <= d)
      /\ Forall
           (fun p =>
              let pt := Env.transformPoint E t p in
              (a <= Point.x pt /\ Point.x pt <= c)
              /\ (b <= Point.y pt /\ Point.y pt <= d)) points
      /\ (a = minx
          \/ Exists (fun p => Point.x (Env.transformPoint E t p) = a) points)
      /\ (b = miny
          \/ Exists (fun p => Point.y (Env.transformPoint E t p) = b) points)
      /\ (c = maxx
          \/ Exists (fun p => Point.x (Env.transformPoint E t p) = c) points)
      /\ (d = maxy
          \/ Exists (fun p => Point.y (Env.transformPoint E t p) = d) points)
  end.
Proof.
  induction points as [|p rest IH]; intros i minx miny maxx maxy Hi Hx Hy.
  - cbn. repeat split; auto using Qcle_refl.
  - cbn [transformRect_loop]. cbv zeta.
    destruct (Nat.eqb i 0) eqn:Hi0; [apply Nat.eqb_eq in Hi0; congruence|].
    set (pt := Env.transformPoint E t p).
    set (minx' := if ltb (Point.x pt) minx then Point.x pt else minx).
    set (maxx' := if ltb maxx (Point.x pt) then Point.x pt else maxx).
    set (miny' := if ltb (Point.y pt) miny then Point.y pt else miny).
    set (maxy' := if ltb maxy (Point.y pt) then Point.y pt else maxy).
    assert (minx' <= minx /\ minx' <= Point.x pt
            /\ (minx' = minx \/ minx' = Point.x pt)) as (A1 & A2 & A3).
    { subst minx'. destruct (ltb (Point.x pt) minx) eqn:T; tests;
        repeat split; auto using Qcle_refl, Qclt_le_weak. }
    assert (maxx <= maxx' /\ Point.x pt <= maxx'
            /\ (maxx' = maxx \/ maxx' = Point.x pt)) as (B1 & B2 & B3).
    { subst maxx'. destruct (ltb maxx (Point.x pt)) eqn:T; tests;
        repeat split; auto using Qcle_refl, Qclt_le_weak. }
    assert (miny' <= miny /\ miny' <= Point.y pt
            /\ (miny' = miny \/ miny' = Point.y pt)) as (C1 & C2 & C3).
    { subst miny'. destruct (ltb (Point.y pt) miny) eqn:T; tests;
        repeat split; auto using Qcle_refl, Qclt_le_weak. }
    assert (maxy <= maxy' /\ Point.y pt <= maxy'
            /\ (maxy' = maxy \/ maxy' = Point.y pt)) as (D1 & D2 & D3).
    { subst maxy'. destruct (ltb maxy (Point.y pt)) eqn:T; tests;
        repeat split; auto using Qcle_refl, Qclt_le_weak. }
    clearbody minx' maxx' miny' maxy'.
    specialize (IH (S i) minx' miny' maxx' maxy' ltac:(discriminate)
                  ltac:(eauto using Qcle_trans)
                  ltac:(eauto using Qcle_trans)).
    destruct (transformRect_loop E t rest (S i) minx' miny' maxx' maxy')
      as [[[a b] c] d].
    destruct IH as ((P1 & P2 & P3 & P4) & Hall & Qa & Qb & Qc & Qd).
    split; [repeat split; eauto using Qcle_trans|].
    split.
    { constructor; [|assumption]. fold pt. cbv zeta.
      repeat split; eauto using Qcle_trans. }
    repeat split.
    + destruct Qa as [->|Qa]; [|right; now constructor 2].
      destruct A3 as [->| ->]; [now left|]. right. now constructor.
    + destruct Qb as [->|Qb]; [|right; now constructor 2].
      destruct C3 as [->| ->]; [now left|]. right. now constructor.
    + destruct Qc as [->|Qc]; [|right; now constructor 2].
      destruct B3 as [->| ->]; [now left|]. right. now constructor.
    + destruct Qd as [->|Qd]; [|right; now constructor 2].
      destruct D3 as [->| ->]; [now left|]. right. now constructor.
Qed.

Lemma transformRect_loop_first (E : Env.t) (t : list TOp) (p : Point.t)
  (rest : list Point.t) (minx miny maxx maxy : Qc) :
  transformRect_loop E t (p :: rest) 0 minx miny maxx maxy
  = transformRect_loop E t rest 1
      (Point.x (Env.transformPoint E t p))
      (Point.y (Env.transformPoint E t p))
      (Point.x (Env.transformPoint E t p))
      (Point.y (Env.transformPoint E t p)).
Proof. reflexivity. Qed.

(** X2.  The rectangle of [transformRect] is read off the four transformed
    corners of the image: its [x] and [y] are the least of their
    coordinates, and its width and height are the differences, as the code
    takes them, between the greatest and the least.  Each of the four
    bounds is a coordinate of a transformed corner, every transformed
    corner lies between them, and the width and height are not negative. *)
Theorem transformRect_bounding_box (E : Env.t) (iCanvas : ImageCanvas)
  (layer : LayerData.t) :
  let image p := Env.transformPoint E (rectOps iCanvas layer) p in
  exists minx miny maxx maxy,
    transformRect E iCanvas layer
    = Rect.mk minx miny (maxx - minx) (maxy - miny)
    /\ Forall
         (fun p =>
            (minx <= Point.x (image p) /\ Point.x (image p) <= maxx)
            /\ (miny <= Point.y (image p) /\ Point.y (image p) <= maxy))
         (corners layer)
    /\ Exists (fun p => Point.x (image p) = minx) (corners layer)
    /\ Exists (fun p => Point.y (image p) = miny) (corners layer)
    /\ Exists (fun p => Point.x (image p) = maxx) (corners layer)
    /\ Exists (fun p => Point.y (image p) = maxy) (corners layer)
    /\ 0 <= Rect.width (transformRect E iCanvas layer)
    /\ 0 <= Rect.height (transformRect E iCanvas layer).
Proof.
  intros image. unfold transformRect, corners. cbv zeta.
  fold (rectOps iCanvas layer).
  set (w := HtmlCanvas.width (LayerData.img layer)).
  set (h := HtmlCanvas.height (LayerData.img layer)).
  rewrite transformRect_loop_first.
  set (pt := Env.transformPoint E (rectOps iCanvas layer) (Point.mk 0 0)).
  pose proof (transformRect_loop_bounds E (rectOps iCanvas layer)
                [Point.mk w 0; Point.mk 0 h; Point.mk w h] 1
                (Point.x pt) (Point.y pt) (Point.x pt) (Point.y pt)
                ltac:(discriminate) (Qcle_refl _) (Qcle_refl _)) as H.
  destruct (transformRect_loop E (rectOps iCanvas layer)
              [Point.mk w 0; Point.mk 0 h; Point.mk w h] 1
              (Point.x pt) (Point.y pt) (Point.x pt) (Point.y pt))
    as [[[a b] c] d].
  destruct H as ((P1 & P2 & P3 & P4) & Hall & Qa & Qb & Qc & Qd).
  exists a, b, c, d. split; [reflexivity|].
  split.
  { constructor; [|exact Hall]. fold pt. auto. }
  cbn [Rect.x Rect.y Rect.width Rect.height].
  repeat split.
  - destruct Qa as [->|Qa]; [now constructor|now constructor 2].
  - destruct Qb as [->|Qb]; [now constructor|now constructor 2].
  - destruct Qc as [->|Qc]; [now constructor|now constructor 2].
  - destruct Qd as [->|Qd]; [now constructor|now constructor 2].
  - qc2q; Lqa.lra.
  - qc2q; Lqa.lra.
Qed.

(** ** Rounding *)

Lemma int_le (a b : Z) : (a <= b)%Z -> int a <= int b.
Proof. intros H. qc2q. now rewrite Zle_Qle in H. Qed.

Lemma int_value (z : Z) : (this (int z) == inject_Z z)%Q.
Proof. unfold int. cbn [this Q2Qc]. apply Qred_correct. Qed.

Lemma Math_ceil_positive (a : Qc) : 0 < Math_ceil a <-> 0 < a.
Proof.
  unfold Math_ceil, Qclt. rewrite int_value. cbn [this Q2Qc].
  rewrite Qred_correct. split; intros H.
  - destruct (Qlt_le_dec 0 a) as [Hpos|Hneg]; [assumption|].
    assert (Qceiling a <= 0)%Z as Hc
      by (change 0%Z with (Qceiling 0); now apply Qceiling_resp_le).
    rewrite Zle_Qle in Hc. change (inject_Z 0) with 0%Q in Hc. Lqa.lra.
  - eapply Qlt_le_trans; [exact H|]. apply Qle_ceiling.
Qed.

Lemma Math_ceil_monotone (a b : Qc) :
  a <= b -> (Qceiling a <= Qceiling b)%Z.
Proof. apply Qceiling_resp_le. Qed.

Lemma Math_round_nonnegative (a : Qc) :
  0 <= a -> (0 <= Qfloor (a + 1 / int 2))%Z.
Proof.
  intros H. rewrite <- (Qfloor_Z 0). apply Qfloor_resp_le.
  qc2q. assert (0 <= 1 / 2)%Q as Hhalf by (vm_compute; discriminate).
  set (half := (1 / 2)%Q) in *. clearbody half. Lqa.lra.
Qed.

(** The side of the intersection with the canvas, on one axis. *)
Lemma clipped_side (x w size : Qc) :
  0 <= Math_max (Math_min (x + w) (0 + size) - Math_max x 0) 0
  /\ Math_max (Math_min (x + w) (0 + size) - Math_max x 0) 0
     <= Math_max size 0.
Proof.
  destruct (Math_min_cases (x + w) (0 + size)) as [[H1 ->]|[H1 ->]];
    destruct (Math_max_cases x 0) as [[H2 ->]|[H2 ->]];
    destruct (Math_max_cases size 0) as [[H4 ->]|[H4 ->]];
    match goal with
    | |- context [Math_max ?u 0] =>
        destruct (Math_max_cases u 0) as [[H3 ->]|[H3 ->]]
    end;
    split; qc2q; Lqa.lra.
Qed.

(** X3.  The rectangle of [calcLayerRect] has whole coordinates; its
    origin is not left of or above the origin of the canvas, and its width
    and height are not negative and not more than the width and height of
    the canvas rounded up. *)
Theorem calcLayerRect_within_canvas (E : Env.t) (iCanvas : ImageCanvas)
  (layer : LayerData.t) :
  exists x y w h : Z,
    calcLayerRect E iCanvas layer = Rect.mk (int x) (int y) (int w) (int h)
    /\ (0 <= x)%Z
    /\ (0 <= y)%Z
    /\ (0 <= w <= Qceiling (Math_max (ICanvas.width iCanvas) 0))%Z
    /\ (0 <= h <= Qceiling (Math_max (ICanvas.height iCanvas) 0))%Z.
Proof.
  unfold calcLayerRect, rectIntersect, Math_round, Math_ceil. cbv zeta.
  cbn [Rect.x Rect.y Rect.width Rect.height].
  set (t := transformRect E iCanvas layer).
  do 4 eexists. split; [reflexivity|].
  destruct (clipped_side (Rect.x t) (Rect.width t) (ICanvas.width iCanvas))
    as [W0 W1].
  destruct (clipped_side (Rect.y t) (Rect.height t) (ICanvas.height iCanvas))
    as [H0 H1].
  split; [|split; [|split; split]].
  - apply Math_round_nonnegative. apply (Math_max_is_max _ 0).
  - apply Math_round_nonnegative. apply (Math_max_is_max _ 0).
  - rewrite <- (Qceiling_Z 0). apply Qceiling_resp_le. exact W0.
  - apply Qceiling_resp_le. exact W1.
  - rewrite <- (Qceiling_Z 0). apply Qceiling_resp_le. exact H0.
  - apply Qceiling_resp_le. exact H1.
Qed.

Lemma interval_positive (x w : Qc) :
  0 < w <-> exists p, x <= p /\ p < x + w.
Proof.
  split.
  - intros H. exists x. split; [apply Qcle_refl|]. qc2q. Lqa.lra.
  - intros (p & H1 & H2). qc2q. Lqa.lra.
Qed.

(** X4.  The manual path blends a layer exactly when the bounding rectangle
    of the layer and the canvas share a point: rounding never gives an area
    to an empty intersection and never takes it from one that is not. *)
Theorem calcLayerRect_area (E : Env.t) (iCanvas : ImageCanvas)
  (layer : LayerData.t) :
  positiveArea (calcLayerRect E iCanvas layer) = true
  <-> exists px py,
        inside px py (transformRect E iCanvas layer)
        /\ inside px py (canvasRect iCanvas).
Proof.
  unfold positiveArea, calcLayerRect, rectIntersect, inside, canvasRect.
  cbv zeta. cbn [Rect.x Rect.y Rect.width Rect.height].
  set (t := transformRect E iCanvas layer).
  rewrite andb_true_iff, !ltb_lt, !Math_ceil_positive.
  rewrite (interval_positive (Math_max (Rect.x t) 0)).
  rewrite (interval_positive (Math_max (Rect.y t) 0)).
  split.
  - intros [(px & Hx) (py & Hy)]. exists px, py.
    apply interval_meet in Hx, Hy. tauto.
  - intros (px & py & (X1 & X2 & Y1 & Y2) & (X3 & X4 & Y3 & Y4)). split.
    + exists px. apply interval_meet. tauto.
    + exists py. apply interval_meet. tauto.
Qed.

(** ** More on the line of a linear gradient *)

Lemma gradientLine_mirrored_nonnegative (w h r : Qc) :
  0 <= r ->
  exists x1 y1, gradientLine w h r = Some (x1, y1, w - x1, h - y1).
Proof.
  intros H0.
  destruct (ltb r (int 45)) eqn:T1; tests.
  { rewrite gradientLine_sector1 by assumption.
    exists 0, (h / int 2 * (int 45 - r) / int 45). line_eq. }
  destruct (ltb r (int 135)) eqn:T2; tests.
  { rewrite gradientLine_sector2 by assumption.
    exists (w * (r - int 45) / (int 135 - int 45)), 0. line_eq. }
  destruct (ltb r (int 225)) eqn:T3; tests.
  { rewrite gradientLine_sector3 by assumption.
    exists w, (h * (r - int 135) / (int 225 - int 135)). line_eq. }
  destruct (ltb r (int 315)) eqn:T4; tests.
  { rewrite gradientLine_sector4 by assumption.
    exists (w * (1 - (r - int 225) / (int 315 - int 225))), h. line_eq. }
  rewrite gradientLine_sector5 by assumption.
  exists 0, (h - h / int 2 * (r - int 315) / (int 360 - int 315)). line_eq.
Qed.

Lemma gradientLine_mirrored (w h r : Qc) :
  int (-360) <= r ->
  exists x1 y1, gradientLine w h r = Some (x1, y1, w - x1, h - y1).
Proof.
  intros Hlo. destruct (ltb r 0) eqn:Hneg; tests.
  - rewrite gradientLine_normalised by assumption.
    apply gradientLine_mirrored_nonnegative. qc2q. Lqa.lra.
  - now apply gradientLine_mirrored_nonnegative.
Qed.

Lemma gradientLine_below (w h r : Qc) :
  r < int (-360) -> gradientLine w h r = None.
Proof.
  intros H. unfold gradientLine.
  assert (ltb r 0 = true) as -> by (apply ltb_lt; qc2q; Lqa.lra).
  assert (leb 0 (r + int 360) = false) as -> by (apply leb_gt; qc2q; Lqa.lra).
  assert (leb (int 45) (r + int 360) = false) as ->
    by (apply leb_gt; qc2q; Lqa.lra).
  assert (leb (int 135) (r + int 360) = false) as ->
    by (apply leb_gt; qc2q; Lqa.lra).
  assert (leb (int 225) (r + int 360) = false) as ->
    by (apply leb_gt; qc2q; Lqa.lra).
  assert (leb (int 315) (r + int 360) = false) as ->
    by (apply leb_gt; qc2q; Lqa.lra).
  reflexivity.
Qed.

(** X5.  The end points of a linear gradient are left undefined exactly for
    the rotations below -360 degrees: one turn is added to a negative
    rotation, once, and no branch takes a rotation that is still
    negative. *)
Theorem gradientLine_undefined (w h r : Qc) :
  gradientLine w h r = None <-> r < int (-360).
Proof.
  split.
  - intros Hnone. destruct (ltb r (int (-360))) eqn:T; tests; [assumption|].
    destruct (gradientLine_mirrored w h r T) as (x1 & y1 & Hsome).
    congruence.
  - apply gradientLine_below.
Qed.

(** X6.  From -360 degrees on, the line of a linear gradient goes through
    the centre of the rectangle: its second end point is the first one
    mirrored through the centre. *)
Theorem gradientLine_centred (w h r : Qc) (Hlo : int (-360) <= r) :
  exists x1 y1 x2 y2,
    gradientLine w h r = Some (x1, y1, x2, y2)
    /\ (x1 + x2) / int 2 = w / int 2
    /\ (y1 + y2) / int 2 = h / int 2.
Proof.
  destruct (gradientLine_mirrored w h r Hlo) as (x1 & y1 & Hsome).
  exists x1, y1, (w - x1), (h - y1). split; [assumption|].
  split; qc_eq; field.
Qed.

Lemma gradientLine_centred_witness :
  int (-360) <= int 100
  /\ exists x1 y1 x2 y2,
       gradientLine (int 200) (int 100) (int 100) = Some (x1, y1, x2, y2)
       /\ (x1 + x2) / int 2 = int 200 / int 2
       /\ (y1 + y2) / int 2 = int 100 / int 2.
Proof.
  assert (int (-360) <= int 100) as Hlo by (vm_compute; discriminate).
  split; [exact Hlo|].
  exact (gradientLine_centred (int 200) (int 100) (int 100) Hlo).
Defined.

(** ** Chains of filters *)

Section Filters.

Variable E : Env.t.

(** After the first pass of the loop the output buffer holds the result so
    far, and every further filter is applied to it. *)
Lemma processImage_loop_later (filters : list Filter.t) (w h w0 h0 : Qc) :
  Forall (usable E) filters ->
  forall i dI dO,
  exists dI' result,
    applyFilters E filters w h dO = Some result
    /\ processImage_loop E filters (S i) w h
         (ImageData.mk w0 h0 dI) (ImageData.mk w0 h0 dO)
       = (filterLog filters,
          inr (ImageData.mk w0 h0 dI', ImageData.mk w0 h0 result)).
Proof.
  induction 1 as [|f rest (fn & Hfn & Hobl) _ IH]; intros i dI dO.
  - exists dI, dO. split; reflexivity.
  - cbn [processImage_loop applyFilters Nat.ltb Nat.leb]. rewrite Hfn.
    cbn [ImageData.data ImageData.width ImageData.height].
    destruct (IH (S i) dO (fn dO dI w h (Filter.options f)))
      as (dI' & result & Happly & Hloop).
    exists dI', result. split.
    + rewrite (Hobl dO [] dI). exact Happly.
    + rewrite bind_emit, Hloop. reflexivity.
Qed.

Lemma processImage_loop_first (filters : list Filter.t) (w h w0 h0 : Qc) :
  Forall (usable E) filters ->
  forall dI dO,
  filters <> [] ->
  exists dI' result,
    applyFilters E filters w h dI = Some result
    /\ processImage_loop E filters 0 w h
         (ImageData.mk w0 h0 dI) (ImageData.mk w0 h0 dO)
       = (filterLog filters,
          inr (ImageData.mk w0 h0 dI', ImageData.mk w0 h0 result)).
Proof.
  intros Hall dI dO Hne. destruct Hall as [|f rest (fn & Hfn & Hobl) Hrest];
    [congruence|].
  cbn [processImage_loop applyFilters Nat.ltb Nat.leb]. rewrite Hfn.
  cbn [ImageData.data ImageData.width ImageData.height].
  destruct (processImage_loop_later rest w h w0 h0 Hrest 0 dI
              (fn dI dO w h (Filter.options f)))
    as (dI' & result & Happly & Hloop).
  exists dI', result. split.
  - rewrite (Hobl dI [] dO). exact Happly.
  - rewrite bind_emit, Hloop. reflexivity.
Qed.

Lemma processImage_loop_unregistered (done : list Filter.t)
  (f : Filter.t) (rest : list Filter.t) (w h : Qc) :
  Forall (fun g => Env.process E (Filter.name g) <> None) done ->
  Env.process E (Filter.name f) = None ->
  forall i inData outData,
    processImage_loop E (done ++ f :: rest) i w h inData outData
    = (filterLog done, inl TypeError).
Proof.
  intros Hdone Hf.
  induction Hdone as [|g done Hg _ IH]; intros i inData outData.
  - cbn [app processImage_loop].
    destruct (if Nat.ltb 0 i then (outData, inData) else (inData, outData)).
    rewrite Hf. reflexivity.
  - cbn [app processImage_loop].
    destruct (if Nat.ltb 0 i then (outData, inData) else (inData, outData))
      as [inD outD].
    destruct (Env.process E (Filter.name g)) as [fn|]; [|congruence].
    rewrite bind_emit, IH. reflexivity.
Qed.

End Filters.

(** X8.  With filters that are registered and whose result does not depend
    on the former content of their output array, the stage of a chain that
    is not empty reads the pixels of the canvas once, calls the filters in
    the order of the chain, each on the result of the one before, puts the
    last result on the canvas and hands the canvas to the callback: the
    exchange of the two buffers does not show. *)
Theorem processImage_chain (E : Env.t) (filters : list Filter.t)
  (canvas : HtmlCanvas.t)
  (Hne : filters <> [])
  (Husable : Forall (usable E) filters) :
  let w := HtmlCanvas.width canvas in
  let h := HtmlCanvas.height canvas in
  exists stage result,
    processImage E (Some filters) = ret stage
    /\ applyFilters E filters w h (Env.getImageData E canvas 0 0 w h)
       = Some result
    /\ forall cb,
         stage (Some canvas) cb
         = (emits
              (EvGetImageData w h :: allocEvent E w h
               :: filterLog filters ++ [EvPutImageData]) ;;;
            cb (Some
                  (HtmlCanvas.withPixels
                     (Env.putImageData E canvas (ImageData.mk w h result) 0 0)
                     canvas))).
Proof.
  intros w h.
  assert (exists dO,
            createImageData E canvas w h
            = ([allocEvent E w h], inr (ImageData.mk w h dO)))
    as (dO & Hcreate).
  { unfold createImageData, allocEvent, ctx_getImageData.
    destruct (Env.hasCreateImageData E); eexists; reflexivity. }
  destruct (processImage_loop_first E filters w h w h Husable
              (Env.getImageData E canvas 0 0 w h) dO Hne)
    as (dI' & result & Happly & Hloop).
  destruct filters as [|f rest]; [congruence|].
  eexists. exists result. split; [reflexivity|]. split; [exact Happly|].
  intros cb. fold w h. unfold ctx_getImageData.
  rewrite bind_assoc, bind_emit, bind_ret, Hcreate, bind_inr, Hloop.
  cbn [fst snd]. rewrite bind_inr. unfold ctx_putImageData.
  rewrite bind_assoc, bind_emit, bind_ret, bind_emits.
  cbn [fst snd app]. rewrite <- app_assoc. reflexivity.
Qed.

Lemma processImage_chain_witness :
  [Filter.mk "invert" NoOptions; Filter.mk "halve" NoOptions;
   Filter.mk "invert" NoOptions] <> []
  /\ Forall (usable Sample.env)
       [Filter.mk "invert" NoOptions; Filter.mk "halve" NoOptions;
        Filter.mk "invert" NoOptions]
  /\ exists stage result,
       processImage Sample.env
         (Some [Filter.mk "invert" NoOptions; Filter.mk "halve" NoOptions;
                Filter.mk "invert" NoOptions])
       = ret stage
       /\ applyFilters Sample.env
            [Filter.mk "invert" NoOptions; Filter.mk "halve" NoOptions;
             Filter.mk "invert" NoOptions] 1 1 [255; 0; 0; 255]%N
          = Some result.
Proof.
  assert ([Filter.mk "invert" NoOptions; Filter.mk "halve" NoOptions;
           Filter.mk "invert" NoOptions] <> []) as Hne by discriminate.
  assert (Forall (usable Sample.env)
            [Filter.mk "invert" NoOptions; Filter.mk "halve" NoOptions;
             Filter.mk "invert" NoOptions]) as Husable.
  { repeat constructor;
      (eexists; split; [reflexivity|]; intros i o o' w h opts; reflexivity). }
  split; [exact Hne|]. split; [exact Husable|].
  destruct (processImage_chain Sample.env _ Sample.red Hne Husable)
    as (stage & result & Hstage & Happly & _).
  exists stage, result. split; [exact Hstage|exact Happly].
Defined.

(** X9.  A chain with a filter whose name is not registered, after filters
    that all are, makes a stage that throws a [TypeError].  On a canvas it
    does so after it has read the pixels of the canvas, got its second
    buffer and called the filters before that one, in their order, and no
    other: nothing is put on the canvas and the callback is not called.
    Without a canvas it throws at once. *)
Theorem processImage_unregistered_filter (E : Env.t)
  (done : list Filter.t) (f : Filter.t) (rest : list Filter.t)
  (Hdone : Forall (fun g => Env.process E (Filter.name g) <> None) done)
  (Hf : Env.process E (Filter.name f) = None) :
  exists stage,
    processImage E (Some (done ++ f :: rest)) = ret stage
    /\ (forall canvas cb,
          stage (Some canvas) cb
          = (EvGetImageData (HtmlCanvas.width canvas)
               (HtmlCanvas.height canvas)
             :: allocEvent E (HtmlCanvas.width canvas)
                  (HtmlCanvas.height canvas)
             :: filterLog done,
             inl TypeError))
    /\ forall cb, stage None cb = throw TypeError.
Proof.
  assert (exists g more, (done ++ f :: rest)%list = g :: more)
    as (g & more & Hchain) by (destruct done; cbn; eauto).
  eexists. split; [rewrite Hchain; reflexivity|].
  split; [|reflexivity].
  intros canvas cb. rewrite <- Hchain.
  set (w := HtmlCanvas.width canvas). set (h := HtmlCanvas.height canvas).
  assert (exists outData,
            createImageData E canvas w h = ([allocEvent E w h], inr outData))
    as (outData & Hcreate).
  { unfold createImageData, allocEvent, ctx_getImageData.
    destruct (Env.hasCreateImageData E); eexists; reflexivity. }
  unfold ctx_getImageData.
  rewrite bind_assoc, bind_emit, bind_ret, Hcreate, bind_inr.
  rewrite (processImage_loop_unregistered E done f rest w h Hdone Hf).
  reflexivity.
Qed.

Lemma processImage_unregistered_filter_witness :
  Forall (fun g => Env.process Sample.env (Filter.name g) <> None)
    [Filter.mk "invert" NoOptions; Filter.mk "halve" NoOptions]
  /\ Env.process Sample.env (Filter.name (Filter.mk "sepia" NoOptions)) = None
  /\ exists stage,
       processImage Sample.env
         (Some [Filter.mk "invert" NoOptions; Filter.mk "halve" NoOptions;
                Filter.mk "sepia" NoOptions; Filter.mk "invert" NoOptions])
       = ret stage
       /\ (forall cb,
             stage (Some Sample.red) cb
             = ([EvGetImageData 1 1; EvCreateImageData 1 1;
                 EvFilter "invert"; EvFilter "halve"],
                inl TypeError))
       /\ forall cb, stage None cb = throw TypeError.
Proof.
  assert (Forall (fun g => Env.process Sample.env (Filter.name g) <> None)
            [Filter.mk "invert" NoOptions; Filter.mk "halve" NoOptions])
    as Hdone by (repeat constructor; discriminate).
  assert (Env.process Sample.env (Filter.name (Filter.mk "sepia" NoOptions))
          = None) as Hf by reflexivity.
  split; [exact Hdone|]. split; [exact Hf|].
  destruct (processImage_unregistered_filter Sample.env
              [Filter.mk "invert" NoOptions; Filter.mk "halve" NoOptions]
              (Filter.mk "sepia" NoOptions) [Filter.mk "invert" NoOptions]
              Hdone Hf) as (stage & Hstage & Hrun & Hnull).
  exists stage. split; [exact Hstage|]. split; [|exact Hnull].
  intros cb. exact (Hrun Sample.red cb).
Defined.

(** ** The native path *)

Section Native.

Variable E : Env.t.
Variable iCanvas : ImageCanvas.

Lemma sameButPixels_refl (c : HtmlCanvas.t) : sameButPixels c c.
Proof. repeat split. Qed.

Lemma sameButPixels_trans (a b c : HtmlCanvas.t) :
  sameButPixels a b -> sameButPixels b c -> sameButPixels a c.
Proof. unfold sameButPixels. intuition congruence. Qed.

Lemma mergeNativeBlend_step_event (canvas : HtmlCanvas.t)
  (layer : LayerData.t) :
  exists canvas',
    mergeNativeBlend_step E iCanvas canvas layer
    = ([drawEvent (nativeState (HtmlCanvas.ctx canvas) iCanvas layer) layer],
       inr canvas')
    /\ sameButPixels canvas canvas'.
Proof.
  unfold mergeNativeBlend_step, ctx_drawImage, nativeState, baseState,
    drawEvent, bind, emit, ret. cbv zeta.
  destruct (neqb (LayerData.opacity layer) 1);
    destruct (negb (String.eqb (LayerData.blendmode layer) "source-over"));
    cbn; eexists; (split; [reflexivity|repeat split]).
Qed.

Lemma mergeNativeBlend_loop_events (layerData : list LayerData.t) :
  forall canvas,
  exists canvas',
    mergeNativeBlend_loop E iCanvas layerData canvas
    = (map (fun l =>
              drawEvent (nativeState (HtmlCanvas.ctx canvas) iCanvas l) l)
         layerData,
       inr canvas')
    /\ sameButPixels canvas canvas'.
Proof.
  induction layerData as [|layer rest IH]; intros canvas.
  - exists canvas. split; [reflexivity|apply sameButPixels_refl].
  - destruct (mergeNativeBlend_step_event canvas layer) as (c1 & H1 & S1).
    destruct (IH c1) as (c2 & H2 & S2).
    exists c2. split; [|eapply sameButPixels_trans; eassumption].
    cbn [mergeNativeBlend_loop map]. rewrite H1, bind_inr, H2.
    destruct S1 as (_ & _ & -> & _). reflexivity.
Qed.

Lemma mergeNativeBlend_loop_app (l1 l2 : list LayerData.t) :
  forall canvas,
  mergeNativeBlend_loop E iCanvas (l1 ++ l2) canvas
  = (c <- mergeNativeBlend_loop E iCanvas l1 canvas ;;
     mergeNativeBlend_loop E iCanvas l2 c).
Proof.
  induction l1 as [|l rest IH]; intros canvas.
  - cbn [app mergeNativeBlend_loop]. now rewrite bind_ret.
  - cbn [app mergeNativeBlend_loop]. rewrite bind_assoc.
    apply bind_ext. intros c. apply IH.
Qed.

End Native.

(** X10.  A native run can be cut in two anywhere: running the first part
    and then the second on the canvas it hands on is running the whole
    run; and a native run with no layer hands the canvas on as it is. *)
Theorem mergeNativeBlend_split (E : Env.t) (iCanvas : ImageCanvas)
  (l1 l2 : list LayerData.t) (canvas : JsCanvas) (cb : Callback JsCanvas) :
  mergeNativeBlend E iCanvas (l1 ++ l2) canvas cb
  = mergeNativeBlend E iCanvas l1 canvas
      (fun c => mergeNativeBlend E iCanvas l2 c cb)
  /\ forall c, mergeNativeBlend E iCanvas [] (Some c) cb = cb (Some c).
Proof.
  split.
  - destruct canvas as [c|]; [|reflexivity].
    unfold mergeNativeBlend. rewrite mergeNativeBlend_loop_app, bind_assoc.
    reflexivity.
  - intros c. unfold mergeNativeBlend. cbn [mergeNativeBlend_loop].
    now rewrite bind_ret.
Qed.

(** ** What the compositor hands to its callback *)

Section Outcome.

Variable E : Env.t.
Variable iCanvas : ImageCanvas.

Lemma singleLayerWithOpacity_event (layer : LayerData.t) :
  exists canvas,
    singleLayerWithOpacity E iCanvas layer
    = ([EvCreateCanvas;
        drawEvent (baseState Context2D.initial iCanvas layer) layer],
       inr canvas)
    /\ HtmlCanvas.width canvas = ICanvas.width iCanvas
    /\ HtmlCanvas.height canvas = ICanvas.height iCanvas
    /\ HtmlCanvas.ctx canvas = Context2D.initial
    /\ HtmlCanvas.saved canvas = [].
Proof.
  unfold singleLayerWithOpacity, createElement_canvas, ctx_drawImage,
    baseState, drawEvent, bind, emit, ret. cbv zeta.
  destruct (neqb (LayerData.opacity layer) 1); cbn; eexists;
    (split; [reflexivity|repeat split]).
Qed.

Lemma mergeNativeBlend_delivers (layerData : list LayerData.t)
  (canvas : HtmlCanvas.t) :
  exists canvas',
    delivers (mergeNativeBlend E iCanvas layerData (Some canvas))
      (map (fun l =>
              drawEvent (nativeState (HtmlCanvas.ctx canvas) iCanvas l) l)
         layerData) canvas'
    /\ sameButPixels canvas canvas'.
Proof.
  destruct (mergeNativeBlend_loop_events E iCanvas layerData canvas)
    as (c' & H & S).
  exists c'. split; [|assumption]. intros k. unfold mergeNativeBlend.
  rewrite H, bind_inr, bind_emits. reflexivity.
Qed.

Lemma mergeManualBlend_cases (layerData : list LayerData.t)
  (canvas : HtmlCanvas.t) :
  (exists log canvas',
     delivers (mergeManualBlend E iCanvas layerData (Some canvas)) log canvas'
     /\ sameButPixels canvas canvas')
  \/ (exists log mode,
        raises E (mergeManualBlend E iCanvas layerData (Some canvas))
          log mode).
Proof.
  set (width := ICanvas.width iCanvas). set (height := ICanvas.height iCanvas).
  assert (exists ev outData,
            createImageData E canvas width height = ([ev], inr outData))
    as (ev & outData & Hc).
  { unfold createImageData, ctx_getImageData.
    destruct (Env.hasCreateImageData E); do 2 eexists; reflexivity. }
  set (baseData :=
         ImageData.mk width height
           (Env.getImageData E canvas 0 0 width height)).
  destruct (mergeManualBlend_loop_draws E iCanvas layerData 0 baseData outData)
    as (s & _ & _ & _ & R).
  destruct (mergeManualBlend_loop E iCanvas layerData 0 baseData outData)
    as [log r] eqn:Hloop.
  unfold outcome in R. cbn [snd] in R.
  assert (forall k,
            mergeManualBlend E iCanvas layerData (Some canvas) k
            = (emits [EvGetImageData width height; ev] ;;;
               (bo <- (log, r) ;;
                canvas <- ctx_putImageData E canvas (snd bo) 0 0 ;;
                k (Some canvas)))) as Hrun.
  { intros k. unfold mergeManualBlend, ctx_getImageData at 1.
    fold width height. rewrite bind_assoc, bind_emit, bind_ret.
    fold baseData. rewrite Hc, bind_inr, Hloop, bind_emits. reflexivity. }
  destruct R as [[bo ->]|[mode [Hmode ->]]].
  - left.
    exists (EvGetImageData width height :: ev :: log ++ [EvPutImageData])%list,
      (HtmlCanvas.withPixels (Env.putImageData E canvas (snd bo) 0 0) canvas).
    split.
    + intros k. rewrite Hrun, bind_inr. unfold ctx_putImageData.
      rewrite bind_assoc, bind_emit, bind_ret, !bind_emits.
      cbn [fst snd app]. rewrite <- app_assoc. reflexivity.
    + repeat split.
  - right. exists (EvGetImageData width height :: ev :: log), mode.
    split; [assumption|]. intros k. rewrite Hrun, bind_emits. reflexivity.
Qed.

Lemma pipeStage_cases (b : bool) (run : list LayerData.t)
  (canvas : HtmlCanvas.t) :
  (exists log canvas',
     delivers (pipeStage E iCanvas (blendFn b run) (Some canvas)) log canvas'
     /\ sameButPixels canvas canvas')
  \/ (exists log mode,
        raises E (pipeStage E iCanvas (blendFn b run) (Some canvas))
          log mode).
Proof.
  destruct b; cbn [pipeStage].
  - left. destruct (mergeNativeBlend_delivers run canvas) as (c' & H & S).
    eauto.
  - apply mergeManualBlend_cases.
Qed.

Lemma runInOrder_cases (runs : list (bool * list LayerData.t)) :
  forall canvas,
  (exists log canvas',
     delivers (runInOrder E iCanvas runs (Some canvas)) log canvas'
     /\ sameButPixels canvas canvas')
  \/ (exists log mode,
        raises E (runInOrder E iCanvas runs (Some canvas)) log mode).
Proof.
  induction runs as [|[b run] runs IH]; intros canvas.
  - left. exists [], canvas. split; [|apply sameButPixels_refl].
    intros k. cbn [runInOrder]. now rewrite emits_nil.
  - destruct (pipeStage_cases b run canvas)
      as [(log1 & c1 & Hok & S1)|(log1 & mode & Hmode & Hbad)].
    + destruct (IH c1)
        as [(log2 & c2 & Hok2 & S2)|(log2 & mode & Hmode & Hbad)].
      * left. exists (log1 ++ log2)%list, c2. split.
        -- intros k. cbn [runInOrder]. rewrite Hok, Hok2, emits_app.
           reflexivity.
        -- eapply sameButPixels_trans; eassumption.
      * right. exists (log1 ++ log2)%list, mode. split; [assumption|].
        intros k. cbn [runInOrder]. rewrite Hok, Hbad, bind_emits.
        reflexivity.
    + right. exists log1, mode. split; [assumption|]. intros k.
      cbn [runInOrder]. apply Hbad.
Qed.

End Outcome.

Lemma composite_cases (E : Env.t) (iCanvas : ImageCanvas)
  (base : LayerData.t) (rest : list LayerData.t) :
  (exists log canvas,
     (forall cb,
        composite E iCanvas (base :: rest) cb
        = (emits log ;;; cb (Some canvas)))
     /\ HtmlCanvas.width canvas = ICanvas.width iCanvas
     /\ HtmlCanvas.height canvas = ICanvas.height iCanvas
     /\ HtmlCanvas.ctx canvas = Context2D.initial
     /\ HtmlCanvas.saved canvas = [])
  \/ (exists log mode,
        Env.blend E mode = None
        /\ forall cb,
             composite E iCanvas (base :: rest) cb
             = (log, inl (NoSuchBlendMode mode))).
Proof.
  destruct (singleLayerWithOpacity_event E iCanvas base)
    as (seed & Hseed & Hw & Hh & Hctx & Hsaved).
  destruct rest as [|l rest].
  - left. do 2 eexists. split; [|repeat split; eassumption].
    intros cb. cbn [composite]. rewrite Hseed, bind_inr, bind_emits.
    reflexivity.
  - assert (forall cb,
              composite E iCanvas (base :: l :: rest) cb
              = merge E iCanvas (base :: l :: rest) cb) as Hc
      by reflexivity.
    destruct (runInOrder_cases E iCanvas
                (definedRuns (groups (capability E) (l :: rest))) seed)
      as [(log & c & Hok & (S1 & S2 & S3 & S4))|(log & mode & Hmode & Hbad)].
    + left. exists ([EvCreateCanvas;
                     drawEvent (baseState Context2D.initial iCanvas base) base]
                    ++ log)%list, c.
      split; [|repeat split; congruence].
      intros cb. rewrite Hc, merge_runs, Hseed, bind_inr, Hok, !bind_emits.
      cbn [fst snd]. now rewrite app_assoc.
    + right. eexists. exists mode. split; [assumption|].
      intros cb. rewrite Hc, merge_runs, Hseed, bind_inr, Hbad. reflexivity.
Qed.

(** X11.  For a list of layers that is not empty, the compositor either
    calls its callback once, as the last thing it does, with a canvas that
    has the width and height of the image canvas and a context back in its
    initial state with nothing saved, or throws the error for a blend mode
    that is not registered and never calls the callback.  It throws nothing
    else. *)
Theorem composite_delivers_or_raises (E : Env.t) (iCanvas : ImageCanvas)
  (base : LayerData.t) (rest : list LayerData.t) :
  (exists log canvas,
     (forall cb,
        composite E iCanvas (base :: rest) cb
        = (emits log ;;; cb (Some canvas)))
     /\ HtmlCanvas.width canvas = ICanvas.width iCanvas
     /\ HtmlCanvas.height canvas = ICanvas.height iCanvas
     /\ HtmlCanvas.ctx canvas = Context2D.initial
     /\ HtmlCanvas.saved canvas = [])
  \/ (exists log mode,
        Env.blend E mode = None
        /\ forall cb,
             composite E iCanvas (base :: rest) cb
             = (log, inl (NoSuchBlendMode mode))).
Proof. exact (composite_cases E iCanvas base rest). Qed.

(** X12.  When the table of native modes has every layer above the base as
    native, the compositor creates one canvas and draws every layer on it
    once, in the order of the list, each under the state that its own
    transform, opacity and blend mode give from the initial state; it reads
    no pixels back, calls no blend function, throws nothing and hands the
    canvas to its callback. *)
Theorem composite_all_native (E : Env.t) (iCanvas : ImageCanvas)
  (base : LayerData.t) (rest : list LayerData.t)
  (Hnative : Forall (fun l => capability E l = Some true) rest) :
  exists canvas,
    forall cb,
      composite E iCanvas (base :: rest) cb
      = (emits
           (EvCreateCanvas
            :: drawEvent (baseState Context2D.initial iCanvas base) base
            :: map (fun l =>
                      drawEvent (nativeState Context2D.initial iCanvas l) l)
                 rest) ;;;
         cb (Some canvas)).
Proof.
  destruct (singleLayerWithOpacity_event E iCanvas base)
    as (seed & Hseed & _ & _ & Hctx & _).
  destruct rest as [|l rest].
  - exists seed. intros cb. cbn [composite map].
    rewrite Hseed, bind_inr, bind_emits. reflexivity.
  - destruct (mergeNativeBlend_delivers E iCanvas (l :: rest) seed)
      as (c & Hok & _).
    exists c. intros cb.
    assert (composite E iCanvas (base :: l :: rest) cb
            = merge E iCanvas (base :: l :: rest) cb) as -> by reflexivity.
    rewrite merge_runs, Hseed, bind_inr.
    rewrite all_native_groups by (congruence || assumption).
    cbn [definedRuns flat_map app runInOrder pipeStage].
    rewrite Hok, Hctx, !bind_emits. reflexivity.
Qed.

Lemma composite_all_native_witness :
  Forall (fun l => capability Sample.env l = Some true)
    [Sample.placement "source-over" 0; Sample.placement "source-over" 0]
  /\ exists canvas,
       forall cb,
         composite Sample.env Sample.onePixel
           [ Sample.placement "source-over" 0;
             Sample.placement "source-over" 0;
             Sample.placement "source-over" 0 ] cb
         = (emits
              (EvCreateCanvas
               :: drawEvent
                    (baseState Context2D.initial Sample.onePixel
                       (Sample.placement "source-over" 0))
                    (Sample.placement "source-over" 0)
               :: map (fun l =>
                         drawEvent
                           (nativeState Context2D.initial Sample.onePixel l) l)
                    [ Sample.placement "source-over" 0;
                      Sample.placement "source-over" 0 ]) ;;;
            cb (Some canvas)).
Proof.
  assert (Forall (fun l => capability Sample.env l = Some true)
            [Sample.placement "source-over" 0;
             Sample.placement "source-over" 0]) as Hnative
    by (repeat constructor).
  split; [exact Hnative|].
  exact (composite_all_native Sample.env Sample.onePixel
           (Sample.placement "source-over" 0) _ Hnative).
Defined.

(** ** The two buffers of the manual path *)

Section Manual.

Variable E : Env.t.
Variable iCanvas : ImageCanvas.

Lemma layerOptionsOf_defined (l : LayerData.t) :
  exists log blendData,
    getTransformedLayerData E iCanvas l (calcLayerRect E iCanvas l)
    = (log, inr blendData)
    /\ layerOptionsOf E iCanvas l
       = Some (LayerOptions.mk (ImageData.data blendData)
                 (Rect.width (calcLayerRect E iCanvas l))
                 (Rect.height (calcLayerRect E iCanvas l))
                 (LayerData.opacity l)
                 (Rect.x (calcLayerRect E iCanvas l))
                 (Rect.y (calcLayerRect E iCanvas l))).
Proof.
  destruct (getTransformedLayerData_draws E iCanvas l
              (calcLayerRect E iCanvas l)) as (log & d & Hd & _).
  exists log, d. split; [assumption|].
  unfold layerOptionsOf, outcome. cbv zeta. rewrite Hd. reflexivity.
Qed.

(** One turn of the loop for a placement with an area: the blend function
    reads [src] and its result replaces the data of [dst]. *)
Lemma mergeManualBlend_turn (l : LayerData.t) (fn : BlendFn)
  (src dst : ImageData.t) (pixels : Bytes)
  (Hfn : Env.blend E (LayerData.blendmode l) = Some fn)
  (Hobl : obliviousBlend fn)
  (Hsrc : ImageData.data src = pixels) :
  exists log o,
    layerOptionsOf E iCanvas l = Some o
    /\ forall A (k : ImageData.t -> M A),
         (blendData <- getTransformedLayerData E iCanvas l
                         (calcLayerRect E iCanvas l) ;;
          let layerOptions :=
            LayerOptions.mk (ImageData.data blendData)
              (Rect.width (calcLayerRect E iCanvas l))
              (Rect.height (calcLayerRect E iCanvas l))
              (LayerData.opacity l)
              (Rect.x (calcLayerRect E iCanvas l))
              (Rect.y (calcLayerRect E iCanvas l)) in
          match Env.blend E (LayerData.blendmode l) with
          | None => throw (NoSuchBlendMode (LayerData.blendmode l))
          | Some fn =>
              emit (EvBlend (LayerData.blendmode l) layerOptions) ;;;
              k (ImageData.mk (ImageData.width dst) (ImageData.height dst)
                   (fn (ImageData.data src) (ImageData.data dst)
                      (ICanvas.width iCanvas) (ICanvas.height iCanvas)
                      layerOptions))
          end)
         = (emits log ;;;
            k (ImageData.mk (ImageData.width dst) (ImageData.height dst)
                 (fn pixels [] (ICanvas.width iCanvas)
                    (ICanvas.height iCanvas) o))).
Proof.
  destruct (layerOptionsOf_defined l) as (log & d & Hd & Ho).
  eexists (log ++ [EvBlend (LayerData.blendmode l) _])%list. eexists.
  split; [exact Ho|]. intros A k.
  rewrite Hd, bind_inr, Hfn. cbv zeta.
  rewrite bind_emit, !bind_emits. cbn [fst snd app].
  rewrite <- app_assoc. cbn [app].
  rewrite (Hobl _ (ImageData.data dst) []), Hsrc. reflexivity.
Qed.

(** After the first turn the picture so far is in the output buffer. *)
Lemma mergeManualBlend_loop_later (layers : list LayerData.t) :
  forall (i : nat) (baseData outData : ImageData.t),
    Forall (blendable E) layers ->
    sized iCanvas baseData -> sized iCanvas outData ->
    exists log b final,
      mergeManualBlend_loop E iCanvas layers (S i) baseData outData
      = (log,
       inr (b,
            ImageData.mk (ICanvas.width iCanvas) (ICanvas.height iCanvas)
              final))
      /\ blendAll E iCanvas layers (ImageData.data outData) = Some final.
Proof.
  induction layers as [|l rest IH]; intros i baseData outData Hall Hb Ho.
  - exists [], baseData, (ImageData.data outData). split; [|reflexivity].
    cbn [mergeManualBlend_loop]. unfold ret. destruct outData, Ho.
    cbn in *. subst. reflexivity.
  - inversion Hall as [|? ? (fn & Hfn & Hobl) Hrest]; subst.
    cbn [mergeManualBlend_loop blendAll]. cbv zeta. unfold positiveArea.
    destruct (ltb 0 (Rect.width (calcLayerRect E iCanvas l))
              && ltb 0 (Rect.height (calcLayerRect E iCanvas l))).
    + change (Nat.ltb 0 (S i)) with true. cbv iota beta.
      destruct (mergeManualBlend_turn l fn outData baseData
                  (ImageData.data outData) Hfn Hobl eq_refl)
        as (log1 & o & Hopt & Hturn).
      rewrite Hturn, Hfn, Hopt.
      destruct (IH (S i) outData
                  (ImageData.mk (ImageData.width baseData)
                     (ImageData.height baseData)
                     (fn (ImageData.data outData) [] (ICanvas.width iCanvas)
                        (ICanvas.height iCanvas) o))
                  Hrest Ho Hb) as (log2 & b & final & Hloop & Hall').
      exists (log1 ++ log2)%list, b, final. split.
      * rewrite Hloop, bind_emits. reflexivity.
      * exact Hall'.
    + apply IH; assumption.
Qed.

(** In the first turn it is in the base buffer. *)
Lemma mergeManualBlend_loop_start (first : LayerData.t)
  (rest : list LayerData.t) (baseData outData : ImageData.t) :
  positiveArea (calcLayerRect E iCanvas first) = true ->
  Forall (blendable E) (first :: rest) ->
  sized iCanvas baseData -> sized iCanvas outData ->
  exists log b final,
    mergeManualBlend_loop E iCanvas (first :: rest) 0 baseData outData
    = (log,
       inr (b,
            ImageData.mk (ICanvas.width iCanvas) (ICanvas.height iCanvas)
              final))
    /\ blendAll E iCanvas (first :: rest) (ImageData.data baseData)
       = Some final.
Proof.
  intros Harea Hall Hb Ho.
  inversion Hall as [|? ? (fn & Hfn & Hobl) Hrest]; subst.
  cbn [mergeManualBlend_loop blendAll]. cbv zeta. rewrite Harea.
  unfold positiveArea in Harea. rewrite Harea.
  change (Nat.ltb 0 0) with false. cbv iota beta.
  destruct (mergeManualBlend_turn first fn baseData outData
              (ImageData.data baseData) Hfn Hobl eq_refl)
    as (log1 & o & Hopt & Hturn).
  rewrite Hturn, Hfn, Hopt.
  destruct (mergeManualBlend_loop_later rest 0 baseData
              (ImageData.mk (ImageData.width outData)
                 (ImageData.height outData)
                 (fn (ImageData.data baseData) [] (ICanvas.width iCanvas)
                    (ICanvas.height iCanvas) o))
              Hrest Hb Ho) as (log2 & b & final & Hloop & Hall').
  exists (log1 ++ log2)%list, b, final. split.
  - rewrite Hloop, bind_emits. reflexivity.
  - exact Hall'.
Qed.

End Manual.

(** X13.  When the first placement of a run has an area on the canvas and
    every blend mode of the run is registered with a function whose result
    does not depend on the former content of its output array, the manual
    path puts on the canvas the pixels obtained by blending the placements
    that have an area one after the other, each onto the result of the one
    before, starting from the pixels of the canvas; placements without an
    area are passed over. *)
Theorem mergeManualBlend_sequential (E : Env.t) (iCanvas : ImageCanvas)
  (first : LayerData.t) (rest : list LayerData.t) (canvas : HtmlCanvas.t)
  (Harea : positiveArea (calcLayerRect E iCanvas first) = true)
  (Hblend : Forall (blendable E) (first :: rest)) :
  exists log final,
    blendAll E iCanvas (first :: rest)
      (Env.getImageData E canvas 0 0
         (ICanvas.width iCanvas) (ICanvas.height iCanvas))
    = Some final
    /\ forall cb,
         mergeManualBlend E iCanvas (first :: rest) (Some canvas) cb
         = (emits log ;;;
            cb (Some
                  (HtmlCanvas.withPixels
                     (Env.putImageData E canvas
                        (ImageData.mk (ICanvas.width iCanvas)
                           (ICanvas.height iCanvas) final) 0 0)
                     canvas))).
Proof.
  set (W := ICanvas.width iCanvas). set (H := ICanvas.height iCanvas).
  assert (exists ev outData,
            createImageData E canvas W H = ([ev], inr outData)
            /\ ImageData.width outData = W /\ ImageData.height outData = H)
    as (ev & outData & Hc & Hw & Hh).
  { unfold createImageData, ctx_getImageData.
    destruct (Env.hasCreateImageData E); do 2 eexists;
      (split; [reflexivity|split; reflexivity]). }
  set (baseData := ImageData.mk W H (Env.getImageData E canvas 0 0 W H)).
  destruct (mergeManualBlend_loop_start E iCanvas first rest baseData outData
              Harea Hblend (conj eq_refl eq_refl) (conj Hw Hh))
    as (log & b & final & Hloop & Hall).
  exists (EvGetImageData W H :: ev :: log ++ [EvPutImageData])%list, final.
  split; [exact Hall|].
  intros cb. unfold mergeManualBlend, ctx_getImageData at 1.
  fold W H. rewrite bind_assoc, bind_emit, bind_ret. fold baseData.
  rewrite Hc, bind_inr. fold W H in Hloop. rewrite Hloop, bind_inr.
  unfold ctx_putImageData.
  rewrite bind_assoc, bind_emit, bind_ret, !bind_emits.
  cbn [fst snd app]. rewrite <- !app_assoc. reflexivity.
Qed.

Lemma mergeManualBlend_sequential_witness :
  positiveArea
    (calcLayerRect Sample.env Sample.onePixel (Sample.placement "multiply" 0))
  = true
  /\ Forall (blendable Sample.env)
       [Sample.placement "multiply" 0; Sample.placement "multiply" 0]
  /\ exists log final,
       blendAll Sample.env Sample.onePixel
         [Sample.placement "multiply" 0; Sample.placement "multiply" 0]
         (Env.getImageData Sample.env Sample.red 0 0 1 1)
       = Some final
       /\ forall cb,
            mergeManualBlend Sample.env Sample.onePixel
              [Sample.placement "multiply" 0; Sample.placement "multiply" 0]
              (Some Sample.red) cb
            = (emits log ;;;
               cb (Some
                     (HtmlCanvas.withPixels
                        (Env.putImageData Sample.env Sample.red
                           (ImageData.mk 1 1 final) 0 0)
                        Sample.red))).
Proof.
  assert (positiveArea
            (calcLayerRect Sample.env Sample.onePixel
               (Sample.placement "multiply" 0)) = true) as Harea
    by (vm_compute; reflexivity).
  assert (blendable Sample.env (Sample.placement "multiply" 0)) as Hone
    by (exists Sample.multiply; split; [reflexivity|]; intros ? ? ? ? ? ?;
        reflexivity).
  assert (Forall (blendable Sample.env)
            [Sample.placement "multiply" 0; Sample.placement "multiply" 0])
    as Hall by (repeat constructor; exact Hone).
  split; [exact Harea|]. split; [exact Hall|].
  exact (mergeManualBlend_sequential Sample.env Sample.onePixel
           (Sample.placement "multiply" 0) [Sample.placement "multiply" 0]
           Sample.red Harea Hall).
Defined.

(** ** The loaders *)

Ltac hands_on cb :=
  cbn;
  match goal with
  | |- context [cb (Some ?c)] =>
      assert_fails (is_evar c);
      match goal with
      | |- _ = (let (_, _) := cb (Some ?e) in _) => unify e c
      end
  end;
  destruct (cb _); reflexivity.

Lemma load_cases (E : Env.t) (iCanvas : ImageCanvas) (layer : Layer)
  (w h : Qc) :
  contentSize E iCanvas layer = Some (w, h) ->
  exists stage log canvas,
    load E iCanvas layer = Some stage
    /\ (forall x cb, stage x cb = (emits log ;;; cb (Some canvas)))
    /\ HtmlCanvas.width canvas = w
    /\ HtmlCanvas.height canvas = h
    /\ (forall c, Lyr.data layer = CHtmlCanvas c -> log = [] /\ canvas = c)
    /\ (isHtmlCanvas layer = false -> hd_error log = Some EvCreateCanvas).
Proof.
  unfold contentSize, load, load_with, isHtmlCanvas. cbv zeta.
  destruct (Lyr.data layer) as [src|color|g|c|img|ic|] eqn:Hdata;
    intros Hsize; try discriminate.
  - injection Hsize as <- <-.
    eexists. eexists [_; _; _]. eexists. split; [reflexivity|]. split.
    + intros x cb. unfold loadFile, createElement_canvas, ctx_drawImage,
        bind, emit, emits, ret. hands_on cb.
    + repeat split; try discriminate.
  - injection Hsize as <- <-.
    eexists. eexists [_; _]. eexists. split; [reflexivity|]. split.
    + intros x cb. unfold generateColor, createElement_canvas, ctx_fillRect,
        bind, emit, emits, ret. hands_on cb.
    + repeat split; try discriminate.
  - assert (Some (orElse (Lyr.width layer) (ICanvas.width iCanvas),
                  orElse (Lyr.height layer) (ICanvas.height iCanvas))
            = Some (w, h)) as Hwh.
    { destruct (String.eqb _ _); [assumption|].
      destruct (gradientLine _ _ _); [assumption|discriminate]. }
    injection Hwh as <- <-.
    eexists. eexists [_; _]. eexists. split; [reflexivity|]. split.
    + intros x cb. unfold generateGradient, createElement_canvas,
        ctx_fillRect, bind, emit, emits, ret. hands_on cb.
    + repeat split; try discriminate.
  - injection Hsize as <- <-.
    exists (loadHtmlCanvas c), [], c. split; [reflexivity|]. split.
    + intros x cb. unfold loadHtmlCanvas. now rewrite emits_nil.
    + split; [reflexivity|]. split; [reflexivity|].
      split; [|discriminate].
      intros c' Hc'. injection Hc' as <-. split; reflexivity.
  - injection Hsize as <- <-.
    eexists. eexists [_; _]. eexists. split; [reflexivity|]. split.
    + intros x cb. unfold loadImage, createElement_canvas, ctx_drawImage,
        bind, emit, emits, ret. hands_on cb.
    + repeat split; try discriminate.
Qed.

(** X14.  The loader of a layer that holds a file, a fill, a gradient with
    a defined line, an HTML canvas or an image ignores the canvas it is
    given and calls its callback once, with a canvas of the size of the
    content: that of the decoded file or of the image, the width and height
    of the layer or else of the image canvas for a fill and a gradient.  An
    HTML canvas is handed on as it is with no call to the backend; every
    other loader starts by creating a canvas. *)
Theorem load_delivers_content_size (E : Env.t) (iCanvas : ImageCanvas)
  (layer : Layer) (w h : Qc)
  (Hsize : contentSize E iCanvas layer = Some (w, h)) :
  exists stage log canvas,
    load E iCanvas layer = Some stage
    /\ (forall x cb, stage x cb = (emits log ;;; cb (Some canvas)))
    /\ HtmlCanvas.width canvas = w
    /\ HtmlCanvas.height canvas = h
    /\ (forall c, Lyr.data layer = CHtmlCanvas c -> log = [] /\ canvas = c)
    /\ (isHtmlCanvas layer = false -> hd_error log = Some EvCreateCanvas).
Proof. exact (load_cases E iCanvas layer w h Hsize). Qed.

Lemma load_delivers_content_size_witness :
  contentSize Sample.env Sample.onePixel (Sample.fillLayer None (Some []))
  = Some (1, 1)
  /\ exists stage log canvas,
       load Sample.env Sample.onePixel (Sample.fillLayer None (Some []))
       = Some stage
       /\ (forall x cb, stage x cb = (emits log ;;; cb (Some canvas)))
       /\ HtmlCanvas.width canvas = 1
       /\ HtmlCanvas.height canvas = 1.
Proof.
  assert (contentSize Sample.env Sample.onePixel
            (Sample.fillLayer None (Some [])) = Some (1, 1)) as Hsize
    by reflexivity.
  split; [exact Hsize|].
  destruct (load_delivers_content_size Sample.env Sample.onePixel
              (Sample.fillLayer None (Some [])) 1 1 Hsize)
    as (stage & log & canvas & Hload & Hrun & Hw & Hh & _).
  exists stage, log, canvas. repeat split; assumption.
Defined.

(** ** The placements *)

Lemma centred_half (W w : Qc) : (W - w) / int 2 + w / int 2 = W / int 2.
Proof. qc_eq. field. Qed.

Lemma getLayerData_loop_there (iCanvas : ImageCanvas)
  (imgs : list HtmlCanvas.t) :
  forall layers : list Layer,
    (List.length imgs <= List.length layers)%nat ->
    exists ds,
      getLayerData_loop iCanvas layers (map Some imgs) = ret ds
      /\ map LayerData.img ds = imgs
      /\ Forall2 (fun l d => placed l d /\ centred iCanvas d)
           (firstn (List.length imgs) layers) ds.
Proof.
  induction imgs as [|img imgs IH]; intros layers Hlen.
  - exists []. destruct layers; repeat split; constructor.
  - destruct layers as [|l layers]; [cbn in Hlen; lia|].
    destruct (IH layers) as (ds & Hds & Himgs & Hall);
      [cbn in Hlen; lia|].
    eexists (_ :: ds). split; [|split].
    + cbn [map getLayerData_loop]. cbv zeta. rewrite Hds, bind_ret.
      reflexivity.
    + cbn [map LayerData.img]. now rewrite Himgs.
    + cbn [List.length firstn]. constructor; [|exact Hall].
      split; [repeat split|]. split; apply centred_half.
Qed.

Lemma getLayerData_loop_missing (iCanvas : ImageCanvas)
  (images : list JsCanvas) :
  forall layers : list Layer,
    In None images \/ (List.length layers < List.length images)%nat ->
    getLayerData_loop iCanvas layers images = throw TypeError.
Proof.
  induction images as [|[img|] images IH]; intros layers Hbad.
  - destruct Hbad as [[]|Hlen]. cbn in Hlen. lia.
  - destruct layers as [|l layers]; [reflexivity|].
    cbn [getLayerData_loop]. cbv zeta. rewrite IH; [reflexivity|].
    destruct Hbad as [[Hin|Hin]|Hlen];
      [discriminate|left; exact Hin|right; cbn in Hlen; lia].
  - destruct layers; reflexivity.
Qed.

(** X15.  Given one image for each of the first layers of the image canvas,
    none of them [null], [getLayerData] returns one placement for each image,
    in the order of the layers, that holds the image, has the opacity, the
    blend mode and the transformations of its layer, and puts the centre of
    the image at the centre of the image canvas.  It throws a [TypeError]
    when an image is [null] or there are more images than layers. *)
Theorem getLayerData_placements (iCanvas : ImageCanvas)
  (images : list JsCanvas) :
  (forall imgs,
     images = map Some imgs ->
     (List.length imgs <= List.length (ICanvas.layers iCanvas))%nat ->
     exists ds,
       getLayerData iCanvas images = ret ds
       /\ map LayerData.img ds = imgs
       /\ Forall2 (fun l d => placed l d /\ centred iCanvas d)
            (firstn (List.length imgs) (ICanvas.layers iCanvas)) ds)
  /\ (In None images
      \/ (List.length (ICanvas.layers iCanvas) < List.length images)%nat ->
      getLayerData iCanvas images = throw TypeError).
Proof.
  split.
  - intros imgs -> Hlen. apply getLayerData_loop_there. exact Hlen.
  - apply getLayerData_loop_missing.
Qed.

Lemma getLayerData_placements_witness :
  (exists ds,
     getLayerData
       (mkImageCanvas (int 3) (int 2) [Sample.fillLayer None (Some [])])
       [Some Sample.red]
     = ret ds
     /\ map LayerData.img ds = [Sample.red]
     /\ Forall2
          (fun l d =>
             placed l d
             /\ centred
                  (mkImageCanvas (int 3) (int 2)
                     [Sample.fillLayer None (Some [])]) d)
          [Sample.fillLayer None (Some [])] ds)
  /\ getLayerData
       (mkImageCanvas (int 3) (int 2) [Sample.fillLayer None (Some [])])
       [None]
     = throw TypeError.
Proof.
  split.
  - exact (proj1 (getLayerData_placements
                    (mkImageCanvas (int 3) (int 2)
                       [Sample.fillLayer None (Some [])])
                    [Some Sample.red])
             [Sample.red] eq_refl (le_n 1)).
  - exact (proj2 (getLayerData_placements
                    (mkImageCanvas (int 3) (int 2)
                       [Sample.fillLayer None (Some [])])
                    [None])
             (or_introl (or_introl eq_refl))).
Defined.

(** ** Layers without filters and masks *)

Section Plain.

Variable E : Env.t.
Variable iCanvas : ImageCanvas.

Lemma processLayers_plain (layer : Layer) (w h : Qc) :
  plain layer ->
  contentSize E iCanvas layer = Some (w, h) ->
  exists log canvas,
    (forall cb,
       processLayers E iCanvas layer cb = (emits log ;;; cb (Some canvas)))
    /\ HtmlCanvas.width canvas = w
    /\ HtmlCanvas.height canvas = h.
Proof.
  intros (Hfilters & mask & Hmask & Hlayers) Hsize.
  destruct (load_cases E iCanvas layer w h Hsize)
    as (stage & log & canvas & Hload & Hrun & Hw & Hh & _).
  exists log, canvas. split; [|split; assumption].
  intros cb. unfold load in Hload.
  destruct layer. cbn [processLayers]. unfold processLayers_with.
  cbn [Lyr.filters Lyr.mask] in *. subst.
  cbn [processImage]. rewrite bind_ret.
  unfold processMask_with. rewrite Hlayers, bind_ret, Hload.
  cbn [async_compose]. rewrite Hrun. reflexivity.
Qed.

Lemma async_map_plain (layers : list Layer) :
  Forall (fun l => plain l /\ contentSize E iCanvas l <> None) layers ->
  exists log imgs,
    (forall k,
       async_map (processLayers E iCanvas) layers k
       = (emits log ;;; k (map Some imgs)))
    /\ Forall2 (fun l img =>
                  contentSize E iCanvas l
                  = Some (HtmlCanvas.width img, HtmlCanvas.height img))
         layers imgs.
Proof.
  induction 1 as [|l layers [Hplain Hsize] _ (log & imgs & Hmap & Hall)].
  - exists [], []. split; [|constructor]. intros k. cbn [async_map map].
    now rewrite emits_nil.
  - destruct (contentSize E iCanvas l) as [[w h]|] eqn:Hwh; [|congruence].
    destruct (processLayers_plain l w h Hplain Hwh)
      as (log1 & c & Hrun & Hw & Hh).
    exists (log1 ++ log)%list, (c :: imgs). split.
    + intros k. cbn [async_map map]. rewrite Hrun.
      change ((fix go (arr : list Layer) (cb : Callback (list JsCanvas))
                 : M unit :=
                 match arr with
                 | [] => cb []
                 | a :: rest =>
                     processLayers E iCanvas a
                       (fun b => go rest (fun bs => cb (b :: bs)))
                 end) layers)
        with (async_map (processLayers E iCanvas) layers).
      rewrite Hmap, emits_app. reflexivity.
    + constructor; [|exact Hall]. rewrite Hwh, Hw, Hh. reflexivity.
Qed.

Lemma render_plain :
  Forall (fun l => plain l /\ contentSize E iCanvas l <> None)
    (ICanvas.layers iCanvas) ->
  exists log ds,
    (forall cb,
       render E iCanvas (Some cb) = (emits log ;;; composite E iCanvas ds cb))
    /\ render E iCanvas None = emits log
    /\ Forall2
         (fun l d =>
            placed l d /\ centred iCanvas d
            /\ contentSize E iCanvas l
               = Some (HtmlCanvas.width (LayerData.img d),
                       HtmlCanvas.height (LayerData.img d)))
         (ICanvas.layers iCanvas) ds.
Proof.
  intros Hplain.
  destruct (async_map_plain (ICanvas.layers iCanvas) Hplain)
    as (log & imgs & Hmap & Hsizes).
  assert (List.length imgs = List.length (ICanvas.layers iCanvas)) as Hlen
    by (symmetry; eapply Forall2_length; exact Hsizes).
  destruct (getLayerData_loop_there iCanvas imgs (ICanvas.layers iCanvas))
    as (ds & Hds & Himgs & Hplaced); [lia|].
  rewrite Hlen, firstn_all in Hplaced.
  exists log, ds. split; [|split].
  - intros cb. unfold render, render_with. rewrite Hmap.
    unfold getLayerData. rewrite Hds, bind_ret. reflexivity.
  - unfold render, render_with. rewrite Hmap, bind_emits. cbn.
    now rewrite app_nil_r.
  - subst imgs. clear Hmap Hds Hlen Hplain.
    revert Hsizes. induction Hplaced as [|l d ls ds' [Hp Hc] _ IH];
      intros Hsizes; [constructor|].
    inversion Hsizes; subst. constructor; [|apply IH; assumption].
    repeat split; try apply Hp; try apply Hc; assumption.
Qed.

End Plain.

(** X16.  The pipeline of a layer that has no list of filters, or is of no
    known kind, throws a [TypeError] before anything is loaded or drawn and
    never calls the callback, and so does rendering an image canvas that
    has such a layer first. *)
Theorem processLayers_malformed (E : Env.t) (iCanvas : ImageCanvas)
  (layer : Layer) (callback : Callback JsCanvas)
  (Hbad : Lyr.filters layer = None \/ Lyr.data layer = COther) :
  processLayers E iCanvas layer callback = throw TypeError
  /\ forall width height rest cb,
       render E (mkImageCanvas width height (layer :: rest)) cb
       = throw TypeError.
Proof.
  assert (forall ic k, processLayers E ic layer k = throw TypeError) as H.
  { intros ic k. destruct layer. cbn [Lyr.filters Lyr.data] in Hbad.
    cbn [processLayers]. unfold processLayers_with, load_with.
    cbn [Lyr.filters Lyr.mask Lyr.data].
    destruct Hbad as [->| ->]; [reflexivity|].
    destruct filters as [[|f fs]|]; [| |reflexivity];
      (destruct mask as [[? ? [|? ?]]|]; reflexivity). }
  split; [apply H|].
  intros width height rest cb.
  unfold render, render_with. cbn [ICanvas.layers async_map]. apply H.
Qed.

Lemma processLayers_malformed_witness :
  (Lyr.filters (Sample.fillLayer (Some Sample.onePixel) None) = None
   \/ Lyr.data (Sample.fillLayer (Some Sample.onePixel) None) = COther)
  /\ processLayers Sample.env Sample.onePixel
       (Sample.fillLayer (Some Sample.onePixel) None) (fun _ => ret tt)
     = throw TypeError.
Proof.
  assert (Lyr.filters (Sample.fillLayer (Some Sample.onePixel) None) = None
          \/ Lyr.data (Sample.fillLayer (Some Sample.onePixel) None) = COther)
    as Hbad by (left; reflexivity).
  split; [exact Hbad|].
  exact (proj1 (processLayers_malformed Sample.env Sample.onePixel
                  (Sample.fillLayer (Some Sample.onePixel) None)
                  (fun _ => ret tt) Hbad)).
Defined.

(** X17.  When every layer of an image canvas has an empty list of filters
    and a mask without layers, and holds a file, a fill, a gradient with a
    defined line, an HTML canvas or an image, rendering is the loading of
    the layers in order followed by the compositing of one placement for
    each layer, in the order of the layers: the placement has the opacity,
    the blend mode and the transformations of its layer, its image has the
    size of the content of the layer, and its centre is at the centre of
    the image canvas.  Without a callback only the loading is done. *)
Theorem render_plain_layers (E : Env.t) (iCanvas : ImageCanvas)
  (Hplain : Forall (fun l => plain l /\ contentSize E iCanvas l <> None)
              (ICanvas.layers iCanvas)) :
  exists log ds,
    (forall cb,
       render E iCanvas (Some cb) = (emits log ;;; composite E iCanvas ds cb))
    /\ render E iCanvas None = emits log
    /\ Forall2
         (fun l d =>
            placed l d /\ centred iCanvas d
            /\ contentSize E iCanvas l
               = Some (HtmlCanvas.width (LayerData.img d),
                       HtmlCanvas.height (LayerData.img d)))
         (ICanvas.layers iCanvas) ds.
Proof. exact (render_plain E iCanvas Hplain). Qed.

Lemma render_plain_layers_witness :
  Forall (fun l => plain l /\ contentSize Sample.env Sample.onePixel l <> None)
    (ICanvas.layers
       (mkImageCanvas 1 1 [Sample.fillLayer (Some Sample.onePixel) (Some [])]))
  /\ exists log ds,
       (forall cb,
          render Sample.env
            (mkImageCanvas 1 1
               [Sample.fillLayer (Some Sample.onePixel) (Some [])])
            (Some cb)
          = (emits log ;;;
             composite Sample.env
               (mkImageCanvas 1 1
                  [Sample.fillLayer (Some Sample.onePixel) (Some [])])
               ds cb))
       /\ List.length ds = 1%nat.
Proof.
  assert (Forall
            (fun l =>
               plain l /\ contentSize Sample.env Sample.onePixel l <> None)
            (ICanvas.layers
               (mkImageCanvas 1 1
                  [Sample.fillLayer (Some Sample.onePixel) (Some [])])))
    as Hplain.
  { repeat constructor; [|discriminate].
    exists Sample.onePixel. split; reflexivity. }
  split; [exact Hplain|].
  destruct (render_plain_layers Sample.env
              (mkImageCanvas 1 1
                 [Sample.fillLayer (Some Sample.onePixel) (Some [])])
              Hplain) as (log & ds & Hrun & _ & Hall).
  exists log, ds. split; [exact Hrun|].
  symmetry. exact (Forall2_length Hall).
Defined.

(** ** Rendering in black and white *)

Lemma createImageData_alloc (E : Env.t) (c : HtmlCanvas.t) (w h : Qc) :
  createImageData E c w h
  = ([allocEvent E w h], inr (ImageData.mk w h (allocData E c w h))).
Proof.
  unfold createImageData, allocEvent, allocData, ctx_getImageData.
  destruct (Env.hasCreateImageData E); reflexivity.
Qed.

(** The stage of a chain of one filter, on a canvas. *)
Lemma single_filter_pass (E : Env.t) (filter : Filter.t) (c : HtmlCanvas.t)
  (cb : Callback JsCanvas) :
  (fn <- processImage E (Some [filter]) ;; fn (Some c) cb)
  = match Env.process E (Filter.name filter) with
    | Some f =>
        emits (filterCalls E (Filter.name filter) c) ;;;
        cb (Some (filtered E f (Filter.options filter) c))
    | None => (missingCalls E c, inl TypeError)
    end.
Proof.
  cbn [processImage]. rewrite bind_ret, createImageData_alloc.
  unfold ctx_getImageData, ctx_putImageData, filterCalls, missingCalls,
    filtered.
  cbn [processImage_loop Nat.ltb Nat.leb].
  destruct (Env.process E (Filter.name filter)) as [f|]; [|reflexivity].
  unfold bind, emit, emits, ret. cbn. destruct (cb _). reflexivity.
Qed.

(** What [renderBW] does with the canvas that [render] hands it. *)
Lemma renderBW_callback (E : Env.t) (c : HtmlCanvas.t)
  (cb : Callback JsCanvas) :
  (ctx_getImageData E c 0 0 (HtmlCanvas.width c) (HtmlCanvas.height c) ;;;
   (fn <- processImage E (Some [Filter.mk "luminancebw" NoOptions]) ;;
    fn (Some c) (fun c' => cb c')))
  = match Env.process E "luminancebw" with
    | Some f =>
        emits (readCall c :: filterCalls E "luminancebw" c) ;;;
        cb (Some (filtered E f NoOptions c))
    | None => (readCall c :: missingCalls E c, inl TypeError)
    end.
Proof.
  unfold ctx_getImageData. rewrite bind_assoc, bind_ret, single_filter_pass.
  cbn [Filter.name Filter.options].
  destruct (Env.process E "luminancebw").
  - now rewrite emits_cons.
  - reflexivity.
Qed.

Section BlackAndWhite.

Variable E : Env.t.
Variable iCanvas : ImageCanvas.

Hypothesis Hplain :
  Forall (fun l => plain l /\ contentSize E iCanvas l <> None)
    (ICanvas.layers iCanvas).

(** [renderBW] on layers without filters and masks, by what the compositor
    does with the placements of the layers. *)
Lemma renderBW_outcomes :
  exists log ds,
    (forall cb,
       render E iCanvas (Some cb) = (emits log ;;; composite E iCanvas ds cb))
    /\ Forall2
         (fun l d =>
            placed l d /\ centred iCanvas d
            /\ contentSize E iCanvas l
               = Some (HtmlCanvas.width (LayerData.img d),
                       HtmlCanvas.height (LayerData.img d)))
         (ICanvas.layers iCanvas) ds
    /\ ((ds = []
         /\ forall cb, renderBW E iCanvas cb = (log, inl TypeError))
        \/ (exists log' composited,
              delivers (composite E iCanvas ds) log' composited
              /\ HtmlCanvas.width composited = ICanvas.width iCanvas
              /\ HtmlCanvas.height composited = ICanvas.height iCanvas
              /\ forall cb,
                   renderBW E iCanvas cb
                   = match Env.process E "luminancebw" with
                     | Some f =>
                         emits (log ++ log' ++ readCall composited
                                :: filterCalls E "luminancebw" composited) ;;;
                         cb (Some (filtered E f NoOptions composited))
                     | None =>
                         ((log ++ log' ++ readCall composited
                           :: missingCalls E composited)%list,
                          inl TypeError)
                     end)
        \/ (exists log' mode,
              raises E (composite E iCanvas ds) log' mode
              /\ forall cb,
                   renderBW E iCanvas cb
                   = ((log ++ log')%list, inl (NoSuchBlendMode mode)))).
Proof.
  destruct (render_plain E iCanvas Hplain) as (log & ds & Hrun & _ & Hall).
  exists log, ds. split; [exact Hrun|]. split; [exact Hall|].
  assert (forall cb,
            renderBW E iCanvas cb
            = (emits log ;;;
               composite E iCanvas ds (fun canvas =>
                 match canvas with
                 | None => throw TypeError
                 | Some canvas =>
                     ctx_getImageData E canvas 0 0
                       (HtmlCanvas.width canvas) (HtmlCanvas.height canvas) ;;;
                     (fn <- processImage E
                              (Some [Filter.mk "luminancebw" NoOptions]) ;;
                      fn (Some canvas) (fun c => cb c))
                 end))) as Hbw
    by (intros cb; exact (Hrun _)).
  destruct ds as [|d ds].
  - left. split; [reflexivity|]. intros cb. rewrite Hbw. cbn [composite].
    rewrite bind_emits. cbn. now rewrite app_nil_r.
  - destruct (composite_cases E iCanvas d ds)
      as [(log2 & c & Hok & Hw & Hh & _)|(log2 & mode & Hmode & Hbad)].
    + right. left. exists log2, c.
      split; [exact Hok|]. split; [exact Hw|]. split; [exact Hh|].
      intros cb. rewrite Hbw, Hok, renderBW_callback.
      destruct (Env.process E "luminancebw").
      * now rewrite !emits_app, <- app_assoc.
      * rewrite !bind_emits. cbn [fst snd]. reflexivity.
    + right. right. exists log2, mode. split; [split; assumption|].
      intros cb. rewrite Hbw, Hbad, bind_emits. reflexivity.
Qed.

(** [renderBW] hands on a canvas of the size of the image canvas, or
    throws. *)
Lemma renderBW_cases :
  (exists log canvas,
     delivers (renderBW E iCanvas) log canvas
     /\ HtmlCanvas.width canvas = ICanvas.width iCanvas
     /\ HtmlCanvas.height canvas = ICanvas.height iCanvas)
  \/ (exists log,
        (forall cb, renderBW E iCanvas cb = (log, inl TypeError))
        /\ (ICanvas.layers iCanvas = []
            \/ Env.process E "luminancebw" = None))
  \/ (exists log mode,
        raises E (renderBW E iCanvas) log mode).
Proof.
  destruct renderBW_outcomes
    as (log & ds & _ & Hall
        & [[-> Hnone]
          |[(log' & c & _ & Hw & Hh & Hrun)|(log' & mode & [Hm _] & Hbad)]]).
  - right. left. exists log. split; [exact Hnone|]. left.
    inversion Hall. reflexivity.
  - destruct (Env.process E "luminancebw") as [f|].
    + left. eexists. exists (filtered E f NoOptions c).
      split; [exact Hrun|]. split; assumption.
    + right. left. eexists. split; [exact Hrun|]. right. reflexivity.
  - right. right. eexists. exists mode. split; [exact Hm|exact Hbad].
Qed.

End BlackAndWhite.

(** X18.  For an image canvas whose layers all have an empty list of
    filters, a mask without layers and a content that is loaded directly,
    [renderBW] loads the layers and has the compositor composite their
    placements, as [render] does, and ends in one of three ways.  With no
    layer it throws a [TypeError].  When the compositor hands on a canvas,
    [renderBW] reads its pixels and runs the filter registered as
    luminancebw on that very canvas: the callback gets the composited canvas
    with the result of the filter on the composited pixels put on it; with no
    such filter registered [renderBW] throws a [TypeError] after the reading.
    When the compositor throws the error of a blend mode that is not
    registered, so does [renderBW]. *)
Theorem renderBW_plain_layers (E : Env.t) (iCanvas : ImageCanvas)
  (Hplain : Forall (fun l => plain l /\ contentSize E iCanvas l <> None)
              (ICanvas.layers iCanvas)) :
  exists log ds,
    (forall cb,
       render E iCanvas (Some cb) = (emits log ;;; composite E iCanvas ds cb))
    /\ Forall2
         (fun l d =>
            placed l d /\ centred iCanvas d
            /\ contentSize E iCanvas l
               = Some (HtmlCanvas.width (LayerData.img d),
                       HtmlCanvas.height (LayerData.img d)))
         (ICanvas.layers iCanvas) ds
    /\ ((ds = []
         /\ forall cb, renderBW E iCanvas cb = (log, inl TypeError))
        \/ (exists log' composited,
              delivers (composite E iCanvas ds) log' composited
              /\ HtmlCanvas.width composited = ICanvas.width iCanvas
              /\ HtmlCanvas.height composited = ICanvas.height iCanvas
              /\ forall cb,
                   renderBW E iCanvas cb
                   = match Env.process E "luminancebw" with
                     | Some f =>
                         emits (log ++ log' ++ readCall composited
                                :: filterCalls E "luminancebw" composited) ;;;
                         cb (Some (filtered E f NoOptions composited))
                     | None =>
                         ((log ++ log' ++ readCall composited
                           :: missingCalls E composited)%list,
                          inl TypeError)
                     end)
        \/ (exists log' mode,
              raises E (composite E iCanvas ds) log' mode
              /\ forall cb,
                   renderBW E iCanvas cb
                   = ((log ++ log')%list, inl (NoSuchBlendMode mode)))).
Proof. exact (renderBW_outcomes E iCanvas Hplain). Qed.

Lemma renderBW_plain_layers_witness :
  Forall
    (fun l => plain l /\ contentSize Darkroom.env Darkroom.oneFill l <> None)
    (ICanvas.layers Darkroom.oneFill)
  /\ exists log composited,
       HtmlCanvas.width composited = 1
       /\ HtmlCanvas.height composited = 1
       /\ forall cb,
            renderBW Darkroom.env Darkroom.oneFill cb
            = (emits log ;;;
               cb (Some
                     (filtered Darkroom.env
                        (fun inData _ _ _ _ => Darkroom.luminancebw inData)
                        NoOptions composited))).
Proof.
  assert (Forall
            (fun l =>
               plain l /\ contentSize Darkroom.env Darkroom.oneFill l <> None)
            (ICanvas.layers Darkroom.oneFill)) as Hplain.
  { repeat constructor; [|discriminate].
    exists Sample.onePixel. split; reflexivity. }
  split; [exact Hplain|].
  destruct (renderBW_plain_layers Darkroom.env Darkroom.oneFill Hplain)
    as (log & ds & _ & Hall
        & [[-> _]
          |[(log' & c & _ & Hw & Hh & Hrun)|(log' & mode & _ & Hbad)]]).
  - inversion Hall.
  - eexists. exists c. split; [exact Hw|]. split; [exact Hh|]. exact Hrun.
  - exfalso. specialize (Hbad (fun _ => ret tt)).
    vm_compute in Hbad. congruence.
Defined.

(** ** Masks *)

(** X19.  For a mask whose layers, of which there is at least one, have an
    empty list of filters, a mask without layers and a content that is
    loaded directly, the mask stage runs [renderBW] on the layers of the
    mask with the size of the canvas it is given, not of the mask, and ends
    in one of three ways.  When [renderBW] hands on the rendered mask, the
    stage reads its pixels and runs the filter registered as mask on the
    canvas it was given, with those pixels and the size of the rendered mask
    as options: the callback gets the given canvas with the result of the
    filter put on it; with no such filter registered the stage throws a
    [TypeError] after the reading.  When [renderBW] throws a [TypeError],
    which it does here only when no filter is registered as luminancebw, or
    the error of a blend mode that is not registered, so does the stage.
    Given [null] the stage throws a [TypeError]. *)
Theorem processMask_plain_layers (E : Env.t) (mask : ImageCanvas)
  (canvas : HtmlCanvas.t)
  (Hlayers : ICanvas.layers mask <> [])
  (Hplain :
     Forall
       (fun l =>
          plain l
          /\ contentSize E
               (mkImageCanvas (HtmlCanvas.width canvas)
                  (HtmlCanvas.height canvas) (ICanvas.layers mask)) l
             <> None)
       (ICanvas.layers mask)) :
  let sized :=
    mkImageCanvas (HtmlCanvas.width canvas) (HtmlCanvas.height canvas)
      (ICanvas.layers mask) in
  exists stage,
    processMask E (Some mask) = ret stage
    /\ (forall cb, stage None cb = throw TypeError)
    /\ ((exists log rendered,
           delivers (renderBW E sized) log rendered
           /\ HtmlCanvas.width rendered = HtmlCanvas.width canvas
           /\ HtmlCanvas.height rendered = HtmlCanvas.height canvas
           /\ forall cb,
                stage (Some canvas) cb
                = match Env.process E "mask" with
                  | Some f =>
                      emits (log ++ readCall rendered
                             :: filterCalls E "mask" canvas) ;;;
                      cb (Some
                            (filtered E f (maskOptions E rendered) canvas))
                  | None =>
                      ((log ++ readCall rendered
                        :: missingCalls E canvas)%list,
                       inl TypeError)
                  end)
        \/ (exists log,
              Env.process E "luminancebw" = None
              /\ (forall k, renderBW E sized k = (log, inl TypeError))
              /\ forall cb, stage (Some canvas) cb = (log, inl TypeError))
        \/ (exists log mode,
              raises E (renderBW E sized) log mode
              /\ forall cb,
                   stage (Some canvas) cb
                   = (log, inl (NoSuchBlendMode mode)))).
Proof.
  intros sized.
  destruct mask as [mw mh layers]. cbn [ICanvas.layers] in *.
  destruct layers as [|l layers]; [congruence|].
  eexists. split; [reflexivity|]. split; [reflexivity|].
  cbv beta iota. cbn [ICanvas.layers].
  change (renderBW_with E (processLayers E)) with (renderBW E).
  fold sized.
  destruct (renderBW_cases E sized Hplain)
    as [(log & c & Hrun & Hw & Hh)
       |[(log & Hfail & [Hnil|Hbw])|(log & mode & Hmode & Hbad)]].
  - left. exists log, c.
    split; [exact Hrun|]. split; [exact Hw|]. split; [exact Hh|].
    intros cb. rewrite Hrun. cbv beta iota.
    unfold ctx_getImageData at 1.
    rewrite bind_assoc, bind_ret. cbv zeta.
    rewrite single_filter_pass. cbn [Filter.name Filter.options].
    fold (readCall c). fold (maskOptions E c).
    destruct (Env.process E "mask").
    + rewrite emits_cons, emits_app. reflexivity.
    + rewrite bind_emit, bind_emits. reflexivity.
  - discriminate Hnil.
  - right. left. exists log. split; [exact Hbw|].
    split; [exact Hfail|]. intros cb. apply Hfail.
  - right. right. exists log, mode. split; [split; assumption|].
    intros cb. apply Hbad.
Qed.

Lemma processMask_plain_layers_witness :
  ICanvas.layers
    (mkImageCanvas (int 7) (int 5)
       [Sample.fillLayer (Some Sample.onePixel) (Some [])]) <> []
  /\ exists stage log rendered,
       processMask Darkroom.env
         (Some (mkImageCanvas (int 7) (int 5)
                  [Sample.fillLayer (Some Sample.onePixel) (Some [])]))
       = ret stage
       /\ delivers (renderBW Darkroom.env Darkroom.oneFill) log rendered
       /\ forall cb,
            stage (Some Sample.red) cb
            = (emits (log ++ readCall rendered
                      :: filterCalls Darkroom.env "mask" Sample.red) ;;;
               cb (Some
                     (filtered Darkroom.env
                        (fun inData _ _ _ options =>
                           match options with
                           | MaskOptions data _ _ _ _ =>
                               Sample.zipWith N.min inData data
                           | _ => inData
                           end)
                        (maskOptions Darkroom.env rendered) Sample.red))).
Proof.
  assert (ICanvas.layers
            (mkImageCanvas (int 7) (int 5)
               [Sample.fillLayer (Some Sample.onePixel) (Some [])]) <> [])
    as Hlayers by discriminate.
  split; [exact Hlayers|].
  assert (Forall
            (fun l =>
               plain l
               /\ contentSize Darkroom.env
                    (mkImageCanvas (HtmlCanvas.width Sample.red)
                       (HtmlCanvas.height Sample.red)
                       (ICanvas.layers
                          (mkImageCanvas (int 7) (int 5)
                             [Sample.fillLayer (Some Sample.onePixel)
                                (Some [])]))) l
                  <> None)
            (ICanvas.layers
               (mkImageCanvas (int 7) (int 5)
                  [Sample.fillLayer (Some Sample.onePixel) (Some [])])))
    as Hplain.
  { repeat constructor; [|discriminate].
    exists Sample.onePixel. split; reflexivity. }
  destruct (processMask_plain_layers Darkroom.env _ Sample.red Hlayers Hplain)
    as (stage & Hstage & _
        & [(log & c & Hbw & _ & _ & Hrun)
          |[(log & Hnone & _)|(log & mode & _ & Hbad)]]).
  - exists stage, log, c. split; [exact Hstage|]. split; [exact Hbw|].
    exact Hrun.
  - discriminate Hnone.
  - exfalso. injection Hstage as <-.
    specialize (Hbad (fun _ => ret tt)).
    vm_compute in Hbad. congruence.
Defined.

(** ** The order of compositing, call by call *)

Section Calls.

Variable E : Env.t.
Variable iCanvas : ImageCanvas.









End Calls.


